(** * Playwright-TS e-commerce suite: wait, locate, act, assert and report helpers

    A shallow embedding of the helper layer of the repository
    (src/utils/locator-utils.ts, element-utils.ts, action-utils.ts,
    assert-utils.ts and src/setup/custom-logger.ts) and the properties its
    specification states about it.

    The helpers are thin asynchronous wrappers around the Playwright runtime.
    The runtime is not part of the repository: it is a record of answers
    ([Runtime]) that every helper takes as an argument, so that each theorem
    holds for every behaviour of the browser.  The program state the helpers
    thread (wall clock, console, current page, error list) is the record
    [World]; a helper is a function from a [World] to an outcome and a new
    [World]. *)

From Stdlib Require Import ZArith NArith String Ascii Bool Lia List.
Import ListNotations.

Local Open Scope Z_scope.

(* ================================================================= *)
(** ** JavaScript values the helpers handle *)

Module JS.

(** A thrown JavaScript value: an [Error] object or anything else. *)
Inductive Thrown : Type :=
| ErrorObject (message : string)
| Raw (shown : string).

(** [error instanceof Error ? error.message : String(error)] *)
Definition describe (error : Thrown) : string :=
  match error with
  | ErrorObject message => message
  | Raw shown => shown
  end.

(** How a call ends: it returns a value or it throws.  For an [async]
    function: its promise is fulfilled or rejected. *)
Inductive Outcome (A : Type) : Type :=
| Returns (a : A)
| Throws (error : Thrown).
Arguments Returns {A} a.
Arguments Throws {A} error.

(** [value || fallback] on an optional number: [undefined] and [0] are
    falsy.  (Budgets are whole milliseconds; [NaN] is not represented.) *)
Definition orElse (value : option Z) (fallback : Z) : Z :=
  match value with
  | Some n => if n =? 0 then fallback else n
  | None => fallback
  end.

(** [value || fallback] on an optional object that is never falsy when
    present (the load-state names are non-empty strings). *)
Definition orDefault {A : Type} (value : option A) (fallback : A) : A :=
  match value with
  | Some a => a
  | None => fallback
  end.

End JS.
Export JS.

(* ================================================================= *)
(** ** src/setup/optional-parameter-types.ts *)

Inductive LoadState : Type := load | domcontentloaded | networkidle.

(** [type TimeoutOption = { timeout?: number }] *)
Record TimeoutOption : Type := { timeout : option Z }.

(** [type ClickOptions = Parameters<Locator['click']>[0] & { loadState? }];
    of Playwright's click options only [timeout] is read by the helpers. *)
Record ClickOptions : Type := {
  click_timeout : option Z;
  loadState : option LoadState
}.

(** [type LocatorOptions = Parameters<Page['locator']>[1]] *)
Record LocatorOptions : Type := {
  hasText : option string;
  hasNotText : option string
}.

(** [options?.timeout] *)
Definition timeout_of (options : option TimeoutOption) : option Z :=
  match options with
  | Some o => timeout o
  | None => None
  end.

Definition click_timeout_of (options : option ClickOptions) : option Z :=
  match options with
  | Some o => click_timeout o
  | None => None
  end.

Definition loadState_of (options : option ClickOptions) : option LoadState :=
  match options with
  | Some o => loadState o
  | None => None
  end.

(** src/utils/timeout-constants.ts is not among the sources: the named
    budgets the helpers import are taken as parameters. *)
Record TimeoutConstants : Type := {
  INSTANT_TIMEOUT : Z;
  SMALL_TIMEOUT : Z;
  STANDARD_TIMEOUT : Z
}.

(** playwright.config.ts: [export const LOADSTATE = 'domcontentloaded'] *)
Definition LOADSTATE : LoadState := domcontentloaded.

(* ================================================================= *)
(** ** The Playwright runtime, as the helpers see it *)

Module Playwright.

(** A page handle and a DOM node, both opaque. *)
Definition Page : Type := nat.
Definition Node : Type := nat.

(** What a locator denotes: a selector on a page, or the [index]-th match
    of another locator ([locator.nth(index)]). *)
Inductive Target : Type :=
| OnPage (pg : Page) (selector : string) (options : option LocatorOptions)
| NthOf (base : Target) (index : nat).

(** A Locator object: [serial] is the identity of the JavaScript object,
    [target] is what it denotes. *)
Record Locator : Type := { serial : nat; target : Target }.

(** What the runtime answers to one awaited request, and how long the
    answer took (milliseconds). *)
Record Reply (A : Type) : Type := { settled : Outcome A; took : N }.
Arguments settled {A} r.
Arguments took {A} r.

(** The behaviour of browser and timers.  The last argument of every field
    is the number of requests answered before this one, so that answers may
    change over time. *)
Record Runtime : Type := {
  (* nodes matched by a selector, in document order *)
  query : Page -> string -> option LocatorOptions -> nat -> Reply (list Node);
  isVisible : Target -> option TimeoutOption -> nat -> Reply bool;
  isHidden : Target -> option TimeoutOption -> nat -> Reply bool;
  isChecked : Target -> option TimeoutOption -> nat -> Reply bool;
  (* locator.waitFor({ state: 'attached', timeout }) *)
  waitForAttached : Target -> Z -> nat -> Reply unit;
  clickOn : Target -> option ClickOptions -> nat -> Reply unit;
  (* page.waitForEvent('framenavigated', { timeout }) *)
  waitForFrameNavigated : Page -> Z -> nat -> Reply unit;
  waitForLoadState : Page -> LoadState -> Z -> nat -> Reply unit;
  (* the verdict of expect(locator).toBeVisible({ timeout }) *)
  toBeVisible : Target -> option Z -> nat -> Reply unit;
  (* by how much a setTimeout callback fires late *)
  timerLag : nat -> N
}.

(** The nodes a target denotes, given the answer of its page. *)
Fixpoint elements (rt : Runtime) (t : Target) (asked : nat) : Reply (list Node) :=
  match t with
  | OnPage pg selector options => query rt pg selector options asked
  | NthOf base index =>
      let r := elements rt base asked in
      {| settled := match settled r with
                    | Returns nodes => Returns (firstn 1 (skipn index nodes))
                    | Throws error => Throws error
                    end;
         took := took r |}
  end.

End Playwright.
Export Playwright.

(* ================================================================= *)
(** ** The state the helpers run in *)

(** An entry of [testInfo.errors]. *)
Record TestError : Type := { error_message : string }.

(** The requests a helper can make of the runtime. *)
Inductive Call : Type :=
| isVisibleCall (t : Target)
| isHiddenCall (t : Target)
| isCheckedCall (t : Target)
| waitForCall (t : Target) (budget : Z)
| allCall (t : Target)
| clickCall (t : Target)
| waitForEventCall (pg : Page) (budget : Z)
| waitForLoadStateCall (pg : Page) (state : LoadState) (budget : Z)
| toBeVisibleCall (t : Target)
| setTimeoutCall (ms : Z).

(** What came back. *)
Inductive Answer : Type :=
| Said (b : bool)
| Found (n : nat)
| Done
| Failed (error : Thrown).

(** One request, as recorded: when it was made, what it was, how it went. *)
Record Entry : Type := { at_ms : Z; what : Call; went : Answer }.

Record World : Type := {
  now : Z;                   (* what Date.now() reads *)
  turn : nat;                (* requests the runtime has answered *)
  minted : nat;              (* Locator objects constructed so far *)
  page : Page;               (* the current page of page-utils *)
  stdout : list string;      (* console.log lines, oldest first *)
  errors : list TestError;   (* testInfo.errors of the running test *)
  journal : list Entry       (* requests made, oldest first *)
}.

(** A helper: from a world to an outcome and the world after it. *)
Definition Run (A : Type) : Type := World -> Outcome A * World.

Definition ret {A : Type} (a : A) : Run A := fun w => (Returns a, w).

Definition throw {A : Type} (error : Thrown) : Run A := fun w => (Throws error, w).

Definition bind {A B : Type} (m : Run A) (k : A -> Run B) : Run B :=
  fun w =>
    match m w with
    | (Returns a, w') => k a w'
    | (Throws error, w') => (Throws error, w')
    end.

(** [try { body } catch (error) { handler }] *)
Definition try_catch {A : Type} (body : Run A) (handler : Thrown -> Run A) : Run A :=
  fun w =>
    match body w with
    | (Returns a, w') => (Returns a, w')
    | (Throws error, w') => handler error w'
    end.

Declare Scope run_scope.
Delimit Scope run_scope with run.
Notation "x <- m ;; k" := (bind m (fun x => k))
  (at level 61, m at next level, right associativity) : run_scope.
Notation "m ;; k" := (bind m (fun _ => k))
  (at level 61, right associativity) : run_scope.
Local Open Scope run_scope.

(** [Date.now()] *)
Definition Date_now : Run Z := fun w => (Returns (now w), w).

(** [console.log(line)] *)
Definition console_log (line : string) : Run unit :=
  fun w =>
    (Returns tt,
     {| now := now w; turn := turn w; minted := minted w; page := page w;
        stdout := stdout w ++ [line]; errors := errors w;
        journal := journal w |}).

(** The world once a request made at [now w] has been answered [spent]
    milliseconds later. *)
Definition answered (w : World) (call : Call) (a : Answer) (spent : Z) : World :=
  {| now := now w + spent; turn := S (turn w); minted := minted w;
     page := page w; stdout := stdout w; errors := errors w;
     journal := journal w ++ [{| at_ms := now w; what := call; went := a |}] |}.

(** [await request]: the runtime's reply becomes the outcome. *)
Definition await {A : Type} (call : Call) (reply : nat -> Reply A)
    (shown : A -> Answer) : Run A :=
  fun w =>
    let r := reply (turn w) in
    match settled r with
    | Returns a => (Returns a, answered w call (shown a) (Z.of_N (took r)))
    | Throws error => (Throws error, answered w call (Failed error) (Z.of_N (took r)))
    end.

(** [await new Promise(resolve => setTimeout(resolve, ms))] *)
Definition sleep (rt : Runtime) (ms : Z) : Run unit :=
  fun w =>
    (Returns tt,
     answered w (setTimeoutCall ms) Done (ms + Z.of_N (timerLag rt (turn w)))).

(** [await Promise.all([first, second])] for two requests started together:
    fulfilled once both are, rejected as soon as one is (the earlier
    rejection wins; on a tie the first of the array). *)
Definition Promise_all (first second : Run unit) : Run unit :=
  fun w =>
    let '(r1, w1) := first w in
    let d1 := now w1 - now w in
    let '(r2, w2) :=
      second {| now := now w; turn := turn w1; minted := minted w1;
                page := page w1; stdout := stdout w1; errors := errors w1;
                journal := journal w1 |} in
    let d2 := now w2 - now w in
    let at_time (d : Z) : World :=
      {| now := now w + d; turn := turn w2; minted := minted w2;
         page := page w2; stdout := stdout w2; errors := errors w2;
         journal := journal w2 |} in
    match r1, r2 with
    | Returns _, Returns _ => (Returns tt, at_time (Z.max d1 d2))
    | Throws e1, Returns _ => (Throws e1, at_time d1)
    | Returns _, Throws e2 => (Throws e2, at_time d2)
    | Throws e1, Throws e2 =>
        if d1 <=? d2 then (Throws e1, at_time d1) else (Throws e2, at_time d2)
    end.

(* ================================================================= *)
(** ** src/utils/page-utils.ts *)

Module PageUtils.

(** Modelled from the spec: page-utils.ts (getPage, setPage) is not among
    the sources.  The specification describes "the single current-page
    handle, exposed as process-wide state initialized once per test
    (before-each hook)": [setPage] stores the handle, [getPage] reads it. *)
Definition getPage : Run Page := fun w => (Returns (page w), w).

(** Modelled from the spec: page-utils.ts is not among the sources; the
    before-each hook of page-setup.ts calls [setPage(page)] to store the
    page of the test that begins. *)
Definition setPage (pg : Page) : Run unit :=
  fun w =>
    (Returns tt,
     {| now := now w; turn := turn w; minted := minted w; page := pg;
        stdout := stdout w; errors := errors w; journal := journal w |}).

End PageUtils.
Export PageUtils.

(* ================================================================= *)
(** ** src/utils/locator-utils.ts *)

Module LocatorUtils.

(** [input: string | Locator] *)
Inductive Input : Type :=
| Selector (selector : string)
| Handle (locator : Locator).

(** [page.locator(selector, options)]: a new Locator object; nothing is
    asked of the browser yet. *)
Definition Page_locator (pg : Page) (selector : string)
    (options : option LocatorOptions) : Run Locator :=
  fun w =>
    (Returns {| serial := minted w; target := OnPage pg selector options |},
     {| now := now w; turn := turn w; minted := S (minted w); page := page w;
        stdout := stdout w; errors := errors w; journal := journal w |}).

(** [locator.all()], which Playwright defines as
    [new Array(await this.count()).fill(0).map((e, i) => this.nth(i))]. *)
Definition Locator_all (rt : Runtime) (locator : Locator) : Run (list Locator) :=
  nodes <- await (allCall (target locator)) (elements rt (target locator))
             (fun nodes => Found (length nodes)) ;;
  fun w =>
    (Returns (map (fun i => {| serial := minted w + i;
                               target := NthOf (target locator) i |})
                  (seq 0 (length nodes))),
     {| now := now w; turn := turn w; minted := minted w + length nodes;
        page := page w; stdout := stdout w; errors := errors w;
        journal := journal w |}).

(** [return typeof input === 'string' ? getPage().locator(input, options) : input;] *)
Definition getLocator (input : Input) (options : option LocatorOptions) : Run Locator :=
  match input with
  | Selector selector => pg <- getPage ;; Page_locator pg selector options
  | Handle locator => ret locator
  end.

(** [return typeof input === 'string'
       ? await getPage().locator(input, options).all() : await input.all();] *)
Definition getAllLocators (rt : Runtime) (input : Input)
    (options : option LocatorOptions) : Run (list Locator) :=
  match input with
  | Selector selector =>
      pg <- getPage ;;
      locator <- Page_locator pg selector options ;;
      Locator_all rt locator
  | Handle locator => Locator_all rt locator
  end.

End LocatorUtils.
Export LocatorUtils.

(* ================================================================= *)
(** ** src/utils/element-utils.ts *)

Module ElementUtils.

(** How a polling loop is left: by [return], by its guard turning false, or
    (in this model only) because the unrolling ran out. *)
Inductive Exit : Type :=
| Returned (b : bool)
| Expired
| Starved.

(** [[
    while (Date.now() - startTime < timeoutInMs) {
      if (await sample) { return true; }
      await new Promise(resolve => setTimeout(resolve, 100));
    }
    ]] *)
Fixpoint polling (rt : Runtime) (fuel : nat) (sample : Run bool)
    (startTime timeoutInMs : Z) : Run Exit :=
  match fuel with
  | O => ret Starved
  | S fuel' =>
      t <- Date_now ;;
      if t - startTime <? timeoutInMs then
        seen <- sample ;;
        if seen then ret (Returned true)
        else sleep rt 100 ;; polling rt fuel' sample startTime timeoutInMs
      else ret Expired
  end.

(** Every round of the loop sleeps 100 ms or more, so this many unrollings
    reach the end of any budget ([Trail_fed] and [rounds_enough] below). *)
Definition rounds (timeoutInMs : Z) : nat := S (S (Z.to_nat (timeoutInMs / 100))).

Definition Locator_isVisible (rt : Runtime) (locator : Locator)
    (options : option TimeoutOption) : Run bool :=
  await (isVisibleCall (target locator)) (isVisible rt (target locator) options) Said.

Definition Locator_isHidden (rt : Runtime) (locator : Locator)
    (options : option TimeoutOption) : Run bool :=
  await (isHiddenCall (target locator)) (isHidden rt (target locator) options) Said.

Definition Locator_isChecked (rt : Runtime) (locator : Locator)
    (options : option TimeoutOption) : Run bool :=
  await (isCheckedCall (target locator)) (isChecked rt (target locator) options) Said.

(** [locator.waitFor({ state: 'attached', timeout: timeoutInMs })] *)
Definition Locator_waitFor_attached (rt : Runtime) (locator : Locator)
    (timeoutInMs : Z) : Run unit :=
  await (waitForCall (target locator) timeoutInMs)
        (waitForAttached rt (target locator) timeoutInMs) (fun _ => Done).

(** What a function returns when its [try] block ended without [return]. *)
Definition or_else {A : Type} (fallen : A) (r : option A) : A :=
  match r with
  | Some a => a
  | None => fallen
  end.

Definition isElementAttached (rt : Runtime) (tc : TimeoutConstants)
    (input : Input) (options : option TimeoutOption) : Run bool :=
  locator <- getLocator input None ;;
  let timeoutInMs := orElse (timeout_of options) (SMALL_TIMEOUT tc) in
  try_catch
    (Locator_waitFor_attached rt locator timeoutInMs ;;
     ret true)
    (fun error =>
       console_log ("isElementAttached- " ++ describe error)%string ;;
       ret false).

Definition isElementVisible (rt : Runtime) (tc : TimeoutConstants)
    (input : Input) (options : option TimeoutOption) : Run bool :=
  locator <- getLocator input None ;;
  let timeoutInMs := orElse (timeout_of options) (SMALL_TIMEOUT tc) in
  startTime <- Date_now ;;
  left <- try_catch
            (polling rt (rounds timeoutInMs) (Locator_isVisible rt locator options)
               startTime timeoutInMs)
            (fun error =>
               console_log ("isElementVisible- " ++ describe error)%string ;;
               ret Expired) ;;
  match left with
  | Returned b => ret b
  | Expired | Starved => ret false  (* Starved does not occur: [isElementVisible_runs] *)
  end.

Definition isElementHidden (rt : Runtime) (tc : TimeoutConstants)
    (input : Input) (options : option TimeoutOption) : Run bool :=
  locator <- getLocator input None ;;
  let timeoutInMs := orElse (timeout_of options) (SMALL_TIMEOUT tc) in
  startTime <- Date_now ;;
  left <- try_catch
            (polling rt (rounds timeoutInMs) (Locator_isHidden rt locator options)
               startTime timeoutInMs)
            (fun error =>
               console_log ("isElementHidden- " ++ describe error)%string ;;
               ret Expired) ;;
  match left with
  | Returned b => ret b
  | Expired | Starved => ret false
  end.

Definition isElementChecked (rt : Runtime) (tc : TimeoutConstants)
    (input : Input) (options : option TimeoutOption) : Run bool :=
  left <- try_catch
            (visible <- isElementVisible rt tc input options ;;
             if visible then
               locator <- getLocator input None ;;
               checked <- Locator_isChecked rt locator options ;;
               ret (Some checked)
             else ret None)
            (fun error =>
               console_log ("isElementChecked- " ++ describe error)%string ;;
               ret None) ;;
  ret (or_else false left).

Definition getLocatorCount (rt : Runtime) (tc : TimeoutConstants)
    (input : Input) (options : option TimeoutOption) : Run nat :=
  let timeoutInMs := orElse (timeout_of options) (INSTANT_TIMEOUT tc) in
  left <- try_catch
            (attached <- isElementAttached rt tc input
                           (Some {| timeout := Some timeoutInMs |}) ;;
             if attached then
               locators <- getAllLocators rt input None ;;
               ret (Some (length locators))
             else ret None)
            (fun error =>
               console_log ("getLocatorCount- " ++ describe error)%string ;;
               ret None) ;;
  ret (or_else O left).

End ElementUtils.
Export ElementUtils.

(* ================================================================= *)
(** ** src/utils/action-utils.ts *)

Module ActionUtils.

Definition click (rt : Runtime) (input : Input) (options : option ClickOptions) : Run unit :=
  locator <- getLocator input None ;;
  await (clickCall (target locator)) (clickOn rt (target locator) options)
        (fun _ => Done).

(** [getPage().waitForEvent('framenavigated', { timeout: timeout })] *)
Definition Page_waitForEvent_framenavigated (rt : Runtime) (budget : Z) : Run unit :=
  pg <- getPage ;;
  await (waitForEventCall pg budget) (waitForFrameNavigated rt pg budget)
        (fun _ => Done).

(** [getPage().waitForLoadState(state, { timeout: timeout })] *)
Definition Page_waitForLoadState (rt : Runtime) (state : LoadState) (budget : Z) : Run unit :=
  pg <- getPage ;;
  await (waitForLoadStateCall pg state budget) (waitForLoadState rt pg state budget)
        (fun _ => Done).

Definition clickAndNavigate (rt : Runtime) (tc : TimeoutConstants)
    (input : Input) (options : option ClickOptions) : Run unit :=
  let timeout := orElse (click_timeout_of options) (STANDARD_TIMEOUT tc) in
  Promise_all (click rt input options)
              (Page_waitForEvent_framenavigated rt timeout) ;;
  Page_waitForLoadState rt (orDefault (loadState_of options) LOADSTATE) timeout.

End ActionUtils.
Export ActionUtils.

(* ================================================================= *)
(** ** src/utils/assert-utils.ts *)

Module AssertUtils.

(** [type ExpectOptions = TimeoutOption & SoftOption & MessageOrOptions] *)
Record ExpectOptions : Type := {
  expect_timeout : option Z;
  soft : option bool
}.

(** [options?.soft] *)
Definition soft_of (options : option ExpectOptions) : option bool :=
  match options with
  | Some o => soft o
  | None => None
  end.

Definition expect_timeout_of (options : option ExpectOptions) : option Z :=
  match options with
  | Some o => expect_timeout o
  | None => None
  end.

(** An [Expect] object, as configured by [expect.configure({ soft })]. *)
Record Expect : Type := { softly : bool }.

(** The global [expect] of the test runner: a failure throws. *)
Definition expect : Expect := {| softly := false |}.

(** A failed expectation: thrown, or (soft) appended to [testInfo.errors]
    while the test goes on. *)
Definition fails (assert : Expect) (error : Thrown) : Run unit :=
  if softly assert then
    fun w =>
      (Returns tt,
       {| now := now w; turn := turn w; minted := minted w; page := page w;
          stdout := stdout w;
          errors := errors w ++ [{| error_message := describe error |}];
          journal := journal w |})
  else throw error.

(** [assert(received).toHaveLength(expected)] *)
Definition toHaveLength {A : Type} (assert : Expect) (received : list A)
    (expected : nat) : Run unit :=
  if Nat.eqb (length received) expected then ret tt
  else fails assert (ErrorObject "expect(received).toHaveLength(expected)").

(** [await assert(locator, options).toBeVisible(options)] *)
Definition toBeVisible_ (rt : Runtime) (assert : Expect) (locator : Locator)
    (options : option ExpectOptions) : Run unit :=
  try_catch
    (await (toBeVisibleCall (target locator))
           (toBeVisible rt (target locator) (expect_timeout_of options))
           (fun _ => Done))
    (fun error => fails assert error).

(** [return expect.configure({ soft: options?.soft });] *)
Definition getExpectWithSoftOption (options : option ExpectOptions) : Expect :=
  {| softly := match soft_of options with Some b => b | None => false end |}.

Definition getLocatorAndAssert (input : Input) (options : option ExpectOptions)
    : Run (Locator * Expect) :=
  locator <- getLocator input None ;;
  let assert := getExpectWithSoftOption options in
  ret (locator, assert).

(** [expect(testInfo.errors).toHaveLength(0);] *)
Definition assertAllSoftAssertions : Run unit :=
  fun w => toHaveLength expect (errors w) 0 w.

Definition expectElementToBeVisible (rt : Runtime) (input : Input)
    (options : option ExpectOptions) : Run unit :=
  la <- getLocatorAndAssert input options ;;
  toBeVisible_ rt (snd la) (fst la) options.

(** A batch of visibility checks, one after the other. *)
Fixpoint expectAllToBeVisible (rt : Runtime) (inputs : list Input)
    (options : option ExpectOptions) : Run unit :=
  match inputs with
  | [] => ret tt
  | input :: more =>
      expectElementToBeVisible rt input options ;;
      expectAllToBeVisible rt more options
  end.

End AssertUtils.
Export AssertUtils.

(* ================================================================= *)
(** ** src/setup/custom-logger.ts *)

Module CustomLogger.

(** winston's npm levels, most severe first. *)
Inductive Level : Type := error | warn | info | http | verbose | debug | silly.

Definition rank (l : Level) : nat :=
  match l with
  | error => 0 | warn => 1 | info => 2 | http => 3
  | verbose => 4 | debug => 5 | silly => 6
  end%nat.

Definition level_name (l : Level) : string :=
  match l with
  | error => "error" | warn => "warn" | info => "info" | http => "http"
  | verbose => "verbose" | debug => "debug" | silly => "silly"
  end.

(** The record a winston format works on. *)
Record Info : Type := {
  timestamp : string;
  level : string;
  message : string
}.

(** What winston and the clock supply: how [colorize({ all: true })] paints a
    string for a level (with [customColors] added: info blue, error red), and
    how [timestamp()] prints the time of a call. *)
Record Logform : Type := {
  colorize : Level -> string -> string;
  toISOString : Z -> string
}.

(** The two transports: the console and logs/info.log. *)
Record Outputs : Type := {
  console : list string;
  info_log : list string
}.

(** [[
    winston.format.printf(({ timestamp, level, message }) => {
      return `${timestamp} [${level}]: ${message}`;
    })
    ]] *)
Definition printf (i : Info) : string :=
  (timestamp i ++ " [" ++ level i ++ "]: " ++ message i)%string.

(** [format.combine(colorize({ all: true }), timestamp(), printf(...))] *)
Definition format (lf : Logform) (at_time : Z) (l : Level) (text : string) : string :=
  printf {| timestamp := toISOString lf at_time;
            level := colorize lf l (level_name l);
            message := colorize lf l text |}.

(** The logger's [level: 'info'], also the level of the file transport. *)
Definition threshold : Level := info.

(** [logger.log(l, text)] at time [at_time]: one line to each transport whose
    level admits [l]. *)
Definition logger_log (lf : Logform) (at_time : Z) (l : Level) (text : string)
    (out : Outputs) : Outputs :=
  if Nat.leb (rank l) (rank threshold) then
    let line := format lf at_time l text in
    {| console := console out ++ [line];
       info_log := if Nat.leb (rank l) (rank info) then info_log out ++ [line]
                   else info_log out |}
  else out.

Definition logger_info (lf : Logform) (at_time : Z) (text : string) : Outputs -> Outputs :=
  logger_log lf at_time info text.

Definition logger_error (lf : Logform) (at_time : Z) (text : string) : Outputs -> Outputs :=
  logger_log lf at_time error text.

(** Playwright's [TestCase], [TestResult] and [TestError], as far as the
    reporter reads them. *)
Record TestCase : Type := { title : string }.

Inductive Status : Type := passed | failed | timedOut | skipped | interrupted.

Record TestResult : Type := {
  status : Status;
  result_error : option TestError
}.

(** The escape character of the [\x1b[..m] sequences. *)
Definition ESC : string := String (ascii_of_nat 27) EmptyString.

Definition onTestBegin (lf : Logform) (at_time : Z) (test : TestCase)
    : Outputs -> Outputs :=
  logger_info lf at_time ("Starting Test Case: " ++ title test)%string.

Definition onTestEnd (lf : Logform) (at_time : Z) (test : TestCase)
    (result : TestResult) : Outputs -> Outputs :=
  match status result with
  | passed =>
      logger_info lf at_time
        (ESC ++ "[32mTest Case Passed: " ++ title test ++ ESC ++ "[0m")%string
  | skipped =>
      logger_info lf at_time
        (ESC ++ "[33mTest Case Skipped: " ++ title test ++ ESC ++ "[0m")%string
  | failed =>
      match result_error result with
      | Some _ => fun out => out  (* left to Playwright's built-in reporter *)
      | None => fun out => out
      end
  | timedOut | interrupted => fun out => out
  end.

Definition onError (lf : Logform) (at_time : Z) (e : TestError) : Outputs -> Outputs :=
  logger_error lf at_time (error_message e).

End CustomLogger.

(* ================================================================= *)
(** ** Observing a run *)

(** The requests a run added to the journal. *)
Definition news (before after : World) : list Entry :=
  skipn (length (journal before)) (journal after).

(** The time a run took. *)
Definition elapsed (before after : World) : Z := now after - now before.

(** A sample of a poller's predicate. *)
Definition sampling (c : Call) : bool :=
  match c with
  | isVisibleCall _ | isHiddenCall _ => true
  | _ => false
  end.

Definition is_sample (e : Entry) : bool := sampling (what e).

Definition samples (entries : list Entry) : list Entry := filter is_sample entries.

(** The 100 ms timer between two samples. *)
Definition is_nap (e : Entry) : bool :=
  match what e, went e with
  | setTimeoutCall 100, Done => true
  | _, _ => false
  end.

(** Samples at a fixed interval: every sample is followed by one 100 ms
    timer, and nothing else happens. *)
Fixpoint paced (entries : list Entry) : bool :=
  match entries with
  | [] => true
  | s :: rest =>
      match rest with
      | [] => false
      | z :: more => is_sample s && is_nap z && paced more
      end
  end.

(** The budget a poller works with. *)
Definition the_budget (tc : TimeoutConstants) (options : option TimeoutOption) : Z :=
  orElse (timeout_of options) (SMALL_TIMEOUT tc).

(** The world after [getLocator input]: a selector costs one new object. *)
Definition located (input : Input) (w : World) : World :=
  match input with
  | Selector _ =>
      {| now := now w; turn := turn w; minted := S (minted w); page := page w;
         stdout := stdout w; errors := errors w; journal := journal w |}
  | Handle _ => w
  end.

(** The locator [getLocator input options] returns in world [w]. *)
Definition locator_of (input : Input) (options : option LocatorOptions)
    (w : World) : Locator :=
  match input with
  | Selector selector =>
      {| serial := minted w; target := OnPage (page w) selector options |}
  | Handle locator => locator
  end.

(** The world a poller's loop leaves behind: the clock at [t'], the requests
    [entries] made, nothing else touched. *)
Definition polled (w : World) (entries : list Entry) (t' : Z) : World :=
  {| now := t'; turn := (turn w + length entries)%nat; minted := minted w;
     page := page w; stdout := stdout w; errors := errors w;
     journal := journal w ++ entries |}.

(** What a poller returns for the way its loop was left. *)
Definition verdict (left : Outcome Exit) : bool :=
  match left with
  | Returns (Returned b) => b
  | _ => false
  end.

(** What a poller prints for the way its loop was left. *)
Definition complaint (name : string) (left : Outcome Exit) : list string :=
  match left with
  | Throws error => [(name ++ describe error)%string]
  | Returns _ => []
  end.

Definition printed (w : World) (lines : list string) : World :=
  {| now := now w; turn := turn w; minted := minted w; page := page w;
     stdout := stdout w ++ lines; errors := errors w; journal := journal w |}.

(** A request for the checked state. *)
Definition asks_checked (e : Entry) : bool :=
  match what e with
  | isCheckedCall _ => true
  | _ => false
  end.

(** A wait for a load state. *)
Definition awaits_load_state (e : Entry) : bool :=
  match what e with
  | waitForLoadStateCall _ _ _ => true
  | _ => false
  end.

(** What it means for a poller run from [w] to absorb exceptions: it returns
    a boolean, and a sample that raised is the last request it made, is
    reported on the console under the poller's name, and makes it return
    false. *)
Definition absorbs (name : string) (poller : Run bool) (w : World) : Prop :=
  (exists b, fst (poller w) = Returns b) /\
  forall x error,
    In x (news w (snd (poller w))) -> went x = Failed error ->
    fst (poller w) = Returns false /\
    (exists earlier, news w (snd (poller w)) = earlier ++ [x]) /\
    stdout (snd (poller w)) = stdout w ++ [(name ++ describe error)%string].

(** The loop of a poller, as a relation: from the loop head reached at time
    [t] with [k] requests answered and [fuel] unrollings left, the requests
    it makes, how it is left, and when. *)
Section Trail.

Variables (rt : Runtime) (call : Call) (reply : nat -> Reply bool).
Variables (startTime timeoutInMs : Z).

Inductive Trail : nat -> nat -> Z -> list Entry -> Outcome Exit -> Z -> Prop :=
| Trail_starved k t :
    Trail O k t [] (Returns Starved) t
| Trail_expired fuel k t :
    timeoutInMs <= t - startTime ->
    Trail (S fuel) k t [] (Returns Expired) t
| Trail_hit fuel k t :
    t - startTime < timeoutInMs ->
    settled (reply k) = Returns true ->
    Trail (S fuel) k t [{| at_ms := t; what := call; went := Said true |}]
          (Returns (Returned true)) (t + Z.of_N (took (reply k)))
| Trail_thrown fuel k t error :
    t - startTime < timeoutInMs ->
    settled (reply k) = Throws error ->
    Trail (S fuel) k t [{| at_ms := t; what := call; went := Failed error |}]
          (Throws error) (t + Z.of_N (took (reply k)))
| Trail_miss fuel k t entries left t' :
    t - startTime < timeoutInMs ->
    settled (reply k) = Returns false ->
    Trail fuel (S (S k))
          (t + Z.of_N (took (reply k)) + (100 + Z.of_N (timerLag rt (S k))))
          entries left t' ->
    Trail (S fuel) k t
          ({| at_ms := t; what := call; went := Said false |}
           :: {| at_ms := t + Z.of_N (took (reply k));
                 what := setTimeoutCall 100; went := Done |}
           :: entries)
          left t'.

End Trail.

(* ================================================================= *)
(** ** The poller as the specification words it *)

Module AsSpecified.

(** Section 4.1 of the specification: "any exception from the predicate is
    caught, logged, and treated as a 'not yet true' sample".  The catch is
    inside the loop, around the sample alone. *)
Fixpoint polling (rt : Runtime) (fuel : nat) (name : string) (sample : Run bool)
    (startTime timeoutInMs : Z) : Run Exit :=
  match fuel with
  | O => ret Starved
  | S fuel' =>
      t <- Date_now ;;
      if t - startTime <? timeoutInMs then
        seen <- try_catch sample
                  (fun error =>
                     console_log (name ++ describe error)%string ;;
                     ret false) ;;
        if seen then ret (Returned true)
        else sleep rt 100 ;; polling rt fuel' name sample startTime timeoutInMs
      else ret Expired
  end.

Definition isElementVisible (rt : Runtime) (tc : TimeoutConstants)
    (input : Input) (options : option TimeoutOption) : Run bool :=
  locator <- getLocator input None ;;
  let timeoutInMs := orElse (timeout_of options) (SMALL_TIMEOUT tc) in
  startTime <- Date_now ;;
  left <- polling rt (rounds timeoutInMs) "isElementVisible- "
            (Locator_isVisible rt locator options) startTime timeoutInMs ;;
  match left with
  | Returned b => ret b
  | Expired | Starved => ret false
  end.

End AsSpecified.

(* ================================================================= *)
(** ** Concrete worlds and runtimes *)

Module Sample.

Definition instantly {A : Type} (a : A) : Reply A :=
  {| settled := Returns a; took := 0%N |}.

Definition after_ms {A : Type} (ms : N) (a : A) : Reply A :=
  {| settled := Returns a; took := ms |}.

Definition failing {A : Type} (ms : N) (reason : string) : Reply A :=
  {| settled := Throws (ErrorObject reason); took := ms |}.

(** A quiet browser: nothing matches, nothing is visible, every request is
    answered at once, timers are exact. *)
Definition quiet : Runtime :=
  {| query := fun _ _ _ _ => instantly [];
     isVisible := fun _ _ _ => instantly false;
     isHidden := fun _ _ _ => instantly false;
     isChecked := fun _ _ _ => instantly false;
     waitForAttached := fun _ _ _ => instantly tt;
     clickOn := fun _ _ _ => instantly tt;
     waitForFrameNavigated := fun _ _ _ => instantly tt;
     waitForLoadState := fun _ _ _ _ => instantly tt;
     toBeVisible := fun _ _ _ => instantly tt;
     timerLag := fun _ => 0%N |}.

(** The same runtime with another answer to one kind of request. *)
Definition with_isVisible (rt : Runtime)
    (f : Target -> option TimeoutOption -> nat -> Reply bool) : Runtime :=
  {| query := query rt; isVisible := f; isHidden := isHidden rt;
     isChecked := isChecked rt; waitForAttached := waitForAttached rt;
     clickOn := clickOn rt; waitForFrameNavigated := waitForFrameNavigated rt;
     waitForLoadState := waitForLoadState rt; toBeVisible := toBeVisible rt;
     timerLag := timerLag rt |}.

Definition with_isChecked (rt : Runtime)
    (f : Target -> option TimeoutOption -> nat -> Reply bool) : Runtime :=
  {| query := query rt; isVisible := isVisible rt; isHidden := isHidden rt;
     isChecked := f; waitForAttached := waitForAttached rt;
     clickOn := clickOn rt; waitForFrameNavigated := waitForFrameNavigated rt;
     waitForLoadState := waitForLoadState rt; toBeVisible := toBeVisible rt;
     timerLag := timerLag rt |}.

Definition with_clickOn (rt : Runtime)
    (f : Target -> option ClickOptions -> nat -> Reply unit) : Runtime :=
  {| query := query rt; isVisible := isVisible rt; isHidden := isHidden rt;
     isChecked := isChecked rt; waitForAttached := waitForAttached rt;
     clickOn := f; waitForFrameNavigated := waitForFrameNavigated rt;
     waitForLoadState := waitForLoadState rt; toBeVisible := toBeVisible rt;
     timerLag := timerLag rt |}.

Definition with_waitForFrameNavigated (rt : Runtime)
    (f : Page -> Z -> nat -> Reply unit) : Runtime :=
  {| query := query rt; isVisible := isVisible rt; isHidden := isHidden rt;
     isChecked := isChecked rt; waitForAttached := waitForAttached rt;
     clickOn := clickOn rt; waitForFrameNavigated := f;
     waitForLoadState := waitForLoadState rt; toBeVisible := toBeVisible rt;
     timerLag := timerLag rt |}.

Definition with_query (rt : Runtime)
    (f : Page -> string -> option LocatorOptions -> nat -> Reply (list Node)) : Runtime :=
  {| query := f; isVisible := isVisible rt; isHidden := isHidden rt;
     isChecked := isChecked rt; waitForAttached := waitForAttached rt;
     clickOn := clickOn rt; waitForFrameNavigated := waitForFrameNavigated rt;
     waitForLoadState := waitForLoadState rt; toBeVisible := toBeVisible rt;
     timerLag := timerLag rt |}.

Definition with_toBeVisible (rt : Runtime)
    (f : Target -> option Z -> nat -> Reply unit) : Runtime :=
  {| query := query rt; isVisible := isVisible rt; isHidden := isHidden rt;
     isChecked := isChecked rt; waitForAttached := waitForAttached rt;
     clickOn := clickOn rt; waitForFrameNavigated := waitForFrameNavigated rt;
     waitForLoadState := waitForLoadState rt; toBeVisible := f;
     timerLag := timerLag rt |}.

(** A browser that fails the first request and then shows the element. *)
Definition flaky : Runtime :=
  with_isVisible quiet
    (fun _ _ i =>
       match i with
       | O => failing 0 "Execution context was destroyed"
       | S _ => instantly true
       end).

(** A browser that needs 250 ms to answer whether an element is visible. *)
Definition slow : Runtime :=
  with_isVisible quiet (fun _ _ _ => after_ms 250 false).

(** A browser that shows the element from the third request on. *)
Definition late : Runtime :=
  with_isVisible quiet
    (fun _ _ i => instantly (Nat.leb 2 i)).

(** A browser in which the element is visible at once. *)
Definition shown : Runtime :=
  with_isVisible quiet (fun _ _ _ => instantly true).

(** A checkbox that is checked but never visible. *)
Definition ticked_unseen : Runtime :=
  with_isChecked quiet (fun _ _ _ => instantly true).

(** A click that is never followed by a navigation: the wait for the
    'framenavigated' event runs into its budget. *)
Definition stays : Runtime :=
  with_waitForFrameNavigated quiet
    (fun _ budget _ =>
       failing (Z.to_N budget) "page.waitForEvent: Timeout exceeded while waiting for event").

(** An element that becomes clickable after 40 s, on a page that navigates on
    its own after 1 s.  [click] honours its [timeout] option the way
    Playwright documents it: 0 is no time limit, no option is the configured
    action timeout (30 s here). *)
Definition patient : Runtime :=
  with_waitForFrameNavigated
    (with_clickOn quiet
       (fun _ options _ =>
          match click_timeout_of options with
          | Some 0 => after_ms 40000 tt
          | Some budget =>
              if 40000 <=? budget then after_ms 40000 tt
              else failing (Z.to_N budget) "locator.click: Timeout exceeded"
          | None => failing 30000 "locator.click: Timeout exceeded"
          end))
    (fun _ _ _ => after_ms 1000 tt).

(** A page on which every selector matches the nodes 11, 12 and 13. *)
Definition three_items : Runtime :=
  with_query quiet (fun _ _ _ _ => instantly [11; 12; 13]%nat).

(** Expectations of visibility that all fail. *)
Definition nothing_shows : Runtime :=
  with_toBeVisible quiet
    (fun _ _ _ => failing 5000 "expect(locator).toBeVisible: Timeout exceeded").

(** Some budgets, in the order the specification gives them. *)
Definition budgets : TimeoutConstants :=
  {| INSTANT_TIMEOUT := 1000; SMALL_TIMEOUT := 5000; STANDARD_TIMEOUT := 15000 |}.

Definition dawn : World :=
  {| now := 0; turn := 0; minted := 0; page := 7%nat; stdout := [];
     errors := []; journal := [] |}.

Definition within (ms : Z) : option TimeoutOption := Some {| timeout := Some ms |}.

(** ANSI colours the way winston paints them (info blue, error red, the
    other levels left plain here), and a clock that has stopped. *)
Definition ansi : CustomLogger.Logform :=
  {| CustomLogger.colorize := fun l text =>
       match l with
       | CustomLogger.info =>
           (CustomLogger.ESC ++ "[34m" ++ text ++ CustomLogger.ESC ++ "[39m")%string
       | CustomLogger.error =>
           (CustomLogger.ESC ++ "[31m" ++ text ++ CustomLogger.ESC ++ "[39m")%string
       | _ => text
       end;
     CustomLogger.toISOString := fun _ => "1970-01-01T00:00:00.000Z"%string |}.

Definition blank : CustomLogger.Outputs :=
  {| CustomLogger.console := []; CustomLogger.info_log := [] |}.

End Sample.

(* ================================================================= *)
(** ** More ways to observe a run *)

(** A request the runtime rejected. *)
Definition is_failure (e : Entry) : bool :=
  match went e with
  | Failed _ => true
  | _ => false
  end.

(** A request for all the matches of a locator. *)
Definition asks_all (e : Entry) : bool :=
  match what e with
  | allCall _ => true
  | _ => false
  end.

(** The budget [getLocatorCount] hands to [isElementAttached], and the one
    that reaches [locator.waitFor] from there. *)
Definition count_budget (tc : TimeoutConstants) (options : option TimeoutOption) : Z :=
  orElse (timeout_of options) (INSTANT_TIMEOUT tc).

Definition attach_budget (tc : TimeoutConstants) (options : option TimeoutOption) : Z :=
  orElse (timeout_of options) (SMALL_TIMEOUT tc).

(** A poller run that took no longer than its budget allows: nothing at all,
    or less than the budget, one sample ([c] ms at most) and one timer
    (100 ms and [l] ms of lateness at most); less than the budget and one
    sample when the answer is true; nothing when the budget is not positive. *)
Definition in_time (budget c l : Z) (w : World) (run : Outcome bool * World) : Prop :=
  (elapsed w (snd run) = 0 \/ elapsed w (snd run) < budget + c + 100 + l) /\
  (fst run = Returns true -> elapsed w (snd run) < budget + c) /\
  (budget <= 0 -> elapsed w (snd run) = 0 /\ fst run = Returns false).

(** The world with one more entry in [testInfo.errors]. *)
Definition blamed (w : World) (error : Thrown) : World :=
  {| now := now w; turn := turn w; minted := minted w; page := page w;
     stdout := stdout w;
     errors := errors w ++ [{| error_message := describe error |}];
     journal := journal w |}.

(** Whether the options ask for a soft expectation: [soft] is true. *)
Definition asks_soft (options : option ExpectOptions) : bool :=
  softly (getExpectWithSoftOption options).

(** The entries of [testInfo.errors] that failed requests give rise to. *)
Definition blames (entries : list Entry) : list TestError :=
  flat_map (fun x => match went x with
                     | Failed error => [{| error_message := describe error |}]
                     | _ => []
                     end) entries.

Module More.

(** A checkbox that is visible at once and checked. *)
Definition ticked_seen : Runtime :=
  Sample.with_isChecked Sample.shown (fun _ _ _ => Sample.instantly true).

(** Expectations of visibility that hold for the first two requests and
    fail from then on. *)
Definition fades : Runtime :=
  Sample.with_toBeVisible Sample.quiet
    (fun _ _ i =>
       if Nat.ltb i 2 then Sample.instantly tt
       else Sample.failing 5000 "expect(locator).toBeVisible: Timeout exceeded").

Definition softly_please : option ExpectOptions :=
  Some {| expect_timeout := None; soft := Some true |}.

End More.

(** How a request of the [Runtime] that carries no value went. *)
Definition went_as (r : Reply unit) : Answer :=
  match settled r with
  | Returns _ => Done
  | Throws error => Failed error
  end.

(* ================================================================= *)
(** ** The reporter, as the test runner drives it *)

Module Runner.

Import CustomLogger.

(** What the runner tells a reporter, and when. *)
Inductive Event : Type :=
| TestBegins (at_time : Z) (test : TestCase)
| TestEnds (at_time : Z) (test : TestCase) (result : TestResult)
| ErrorOccurs (at_time : Z) (e : TestError).

(** The method of [CustomLogger] the runner calls for an event. *)
Definition notify (lf : Logform) (event : Event) : Outputs -> Outputs :=
  match event with
  | TestBegins at_time test => onTestBegin lf at_time test
  | TestEnds at_time test result => onTestEnd lf at_time test result
  | ErrorOccurs at_time e => onError lf at_time e
  end.

(** A run of the suite, as the reporter sees it: the events in order. *)
Definition report (lf : Logform) (events : list Event) (out : Outputs) : Outputs :=
  fold_left (fun o event => notify lf event o) events out.

(** The events the reporter writes a line for. *)
Definition noted (event : Event) : bool :=
  match event with
  | TestBegins _ _ => true
  | TestEnds _ _ result =>
      match status result with
      | passed | skipped => true
      | failed | timedOut | interrupted => false
      end
  | ErrorOccurs _ _ => true
  end.

End Runner.

(* ================================================================= *)
(** ** Navigation, test ids and values: more of the runtime *)

(** The helpers below ask the browser for things the requests of [Runtime]
    do not cover.  Those answers are the record [Browser]; the requests are
    recorded in a ledger of their own beside the [World], together with the
    test id attribute of Playwright's [selectors] registry. *)
Module Wider.

(** The [waitUntil] of [NavigationOptions]. *)
Inductive WaitUntil : Type :=
| until_load | until_domcontentloaded | until_networkidle | until_commit.

(** [type NavigationOptions = Parameters<Page['reload']>[0]] *)
Record NavigationOptions : Type := {
  waitUntil : option WaitUntil;
  navigation_timeout : option Z
}.

(** [options?.waitUntil] *)
Definition waitUntil_of (options : option NavigationOptions) : option WaitUntil :=
  match options with
  | Some o => waitUntil o
  | None => None
  end.

(** A label of the page as [getCheckboxes] finds it: its text, and the
    checked state of the checkbox inside it, if there is one. *)
Record Label : Type := {
  innerText : string;
  checkbox : option bool
}.

Inductive Request : Type :=
| loadStateRequest (pg : Page) (state : LoadState)
| reloadRequest (pg : Page)
| goBackRequest (pg : Page)
| frameNavigatedRequest (pg : Page)
| inputValueRequest (t : Target)
| evalLabelsRequest (pg : Page).

Record Note : Type := { noted_at : Z; request : Request; result : Answer }.

Record Browser : Type := {
  (* page.waitForLoadState(state), no timeout given *)
  loadStateReached : Page -> LoadState -> nat -> Reply unit;
  reloaded : Page -> option NavigationOptions -> nat -> Reply unit;
  wentBack : Page -> option NavigationOptions -> nat -> Reply unit;
  (* page.waitForEvent('framenavigated'), no timeout given *)
  frameNavigated : Page -> nat -> Reply unit;
  (* page.url() *)
  url : Page -> nat -> string;
  inputValue : Target -> option TimeoutOption -> nat -> Reply string;
  (* the elements matching 'label.merCheckboxLabel', in document order *)
  checkboxLabels : Page -> nat -> Reply (list Label);
  (* String.prototype.trim *)
  trim : string -> string;
  (* the selector Playwright builds for a test id and an attribute name *)
  testIdSelector : string -> string -> string
}.

Record Stage : Type := {
  world : World;
  testIdAttribute : string;   (* what selectors.setTestIdAttribute set last *)
  ledger : list Note          (* requests made of the [Browser], oldest first *)
}.

Definition Act (A : Type) : Type := Stage -> Outcome A * Stage.

Definition done {A : Type} (a : A) : Act A := fun s => (Returns a, s).

Definition and_then {A B : Type} (m : Act A) (k : A -> Act B) : Act B :=
  fun s =>
    match m s with
    | (Returns a, s') => k a s'
    | (Throws error, s') => (Throws error, s')
    end.

(** [try { body } catch (error) { handler }] *)
Definition attempt {A : Type} (body : Act A) (handler : Thrown -> Act A) : Act A :=
  fun s =>
    match body s with
    | (Returns a, s') => (Returns a, s')
    | (Throws error, s') => handler error s'
    end.

(** A helper of the first part, run on the world of the stage. *)
Definition lift {A : Type} (m : Run A) : Act A :=
  fun s =>
    let '(r, w') := m (world s) in
    (r, {| world := w'; testIdAttribute := testIdAttribute s; ledger := ledger s |}).

Declare Scope act_scope.
Delimit Scope act_scope with act.
Notation "x <- m ;; k" := (and_then m (fun x => k))
  (at level 61, m at next level, right associativity) : act_scope.
Notation "m ;; k" := (and_then m (fun _ => k))
  (at level 61, right associativity) : act_scope.
Local Open Scope act_scope.

(** The world [spent] milliseconds and one answer later. *)
Definition later (w : World) (spent : Z) : World :=
  {| now := now w + spent; turn := S (turn w); minted := minted w;
     page := page w; stdout := stdout w; errors := errors w;
     journal := journal w |}.

(** [await request] of the [Browser]. *)
Definition ask {A : Type} (what : Request) (reply : nat -> Reply A)
    (shown : A -> Answer) : Act A :=
  fun s =>
    let w := world s in
    let r := reply (turn w) in
    let noted a :=
      {| world := later w (Z.of_N (took r));
         testIdAttribute := testIdAttribute s;
         ledger := ledger s ++ [{| noted_at := now w; request := what; result := a |}] |} in
    match settled r with
    | Returns a => (Returns a, noted (shown a))
    | Throws error => (Throws error, noted (Failed error))
    end.

(** The stage with the clock of its world set to [t]. *)
Definition at_time (s : Stage) (t : Z) : Stage :=
  {| world := {| now := t; turn := turn (world s); minted := minted (world s);
                 page := page (world s); stdout := stdout (world s);
                 errors := errors (world s); journal := journal (world s) |};
     testIdAttribute := testIdAttribute s; ledger := ledger s |}.

(** [await Promise.all([first, second])], as [Promise_all] above: both
    started together, fulfilled once both are, rejected as soon as one is. *)
Definition together {A B : Type} (first : Act A) (second : Act B) : Act (A * B) :=
  fun s =>
    let t := now (world s) in
    let '(r1, s1) := first s in
    let d1 := now (world s1) - t in
    let '(r2, s2) := second (at_time s1 t) in
    let d2 := now (world s2) - t in
    match r1, r2 with
    | Returns a, Returns b => (Returns (a, b), at_time s2 (t + Z.max d1 d2))
    | Throws e1, Returns _ => (Throws e1, at_time s2 (t + d1))
    | Returns _, Throws e2 => (Throws e2, at_time s2 (t + d2))
    | Throws e1, Throws e2 =>
        if d1 <=? d2 then (Throws e1, at_time s2 (t + d1))
        else (Throws e2, at_time s2 (t + d2))
    end.

(** [await Promise.all(requests)] for any number of requests started
    together: the values in the order of the array once all are fulfilled,
    the earliest rejection otherwise. *)
Fixpoint all_together {A : Type} (requests : list (Act A)) : Act (list A) :=
  match requests with
  | [] => done []
  | first :: more =>
      both <- together first (all_together more) ;;
      done (fst both :: snd both)
  end.

(* ----------------------------------------------------------------- *)
(** *** src/utils/action-utils.ts: navigation *)

(** The load state a [waitUntil] names; ['commit'] names none. *)
Definition load_state_of (u : WaitUntil) : option LoadState :=
  match u with
  | until_load => Some load
  | until_domcontentloaded => Some domcontentloaded
  | until_networkidle => Some networkidle
  | until_commit => None
  end.

(** The load state [waitForPageLoadState] settles on. *)
Definition settles_on (u : option WaitUntil) : LoadState :=
  match u with
  | Some until_load => load
  | Some until_networkidle => networkidle
  | Some until_domcontentloaded | Some until_commit | None => domcontentloaded
  end.

(** [getPage().waitForLoadState(state)] *)
Definition Page_waitForLoadState (br : Browser) (state : LoadState) : Act unit :=
  pg <- lift getPage ;;
  ask (loadStateRequest pg state) (loadStateReached br pg state) (fun _ => Done).

(** [[
    let waitUntil: WaitForLoadStateOptions = LOADSTATE;
    if (options?.waitUntil && options.waitUntil !== 'commit') {
      waitUntil = options.waitUntil;
    }
    await getPage().waitForLoadState(waitUntil);
    ]] *)
Definition waitForPageLoadState (br : Browser) (options : option NavigationOptions)
    : Act unit :=
  let waitUntil :=
    match waitUntil_of options with
    | Some u =>
        match load_state_of u with
        | Some state => state
        | None => LOADSTATE
        end
    | None => LOADSTATE
    end in
  Page_waitForLoadState br waitUntil.

Definition Page_reload (br : Browser) (options : option NavigationOptions) : Act unit :=
  pg <- lift getPage ;;
  ask (reloadRequest pg) (reloaded br pg options) (fun _ => Done).

Definition Page_goBack (br : Browser) (options : option NavigationOptions) : Act unit :=
  pg <- lift getPage ;;
  ask (goBackRequest pg) (wentBack br pg options) (fun _ => Done).

(** [getPage().waitForEvent('framenavigated')] *)
Definition Page_waitForEvent_framenavigated (br : Browser) : Act unit :=
  pg <- lift getPage ;;
  ask (frameNavigatedRequest pg) (frameNavigated br pg) (fun _ => Done).

Definition reloadPage (br : Browser) (options : option NavigationOptions) : Act unit :=
  together (Page_reload br options) (Page_waitForEvent_framenavigated br) ;;
  waitForPageLoadState br options.

Definition goBack (br : Browser) (options : option NavigationOptions) : Act unit :=
  together (Page_goBack br options) (Page_waitForEvent_framenavigated br) ;;
  waitForPageLoadState br options.

(* ----------------------------------------------------------------- *)
(** *** src/utils/element-utils.ts: the URL and the input values *)

(** [getPage().url()] *)
Definition Page_url (br : Browser) : Act string :=
  fun s => (Returns (url br (page (world s)) (turn (world s))), s).

(** [getURL(options: NavigationOptions = { waitUntil: 'load' })] *)
Definition getURL (br : Browser) (options : option NavigationOptions) : Act string :=
  let options :=
    match options with
    | Some o => Some o
    | None => Some {| waitUntil := Some until_load; navigation_timeout := None |}
    end in
  attempt
    (waitForPageLoadState br options ;;
     Page_url br)
    (fun error =>
       lift (console_log ("getURL- " ++ describe error)%string) ;;
       done EmptyString).

Definition getInputValue (br : Browser) (input : Input)
    (options : option TimeoutOption) : Act string :=
  locator <- lift (getLocator input None) ;;
  ask (inputValueRequest (target locator)) (inputValue br (target locator) options)
      (fun _ => Done).

(** [[
    const locators = await getAllLocators(input);
    return Promise.all(locators.map(locator => getInputValue(locator, options)));
    ]] *)
Definition getAllInputValues (rt : Runtime) (br : Browser) (input : Input)
    (options : option TimeoutOption) : Act (list string) :=
  locators <- lift (getAllLocators rt input None) ;;
  all_together (map (fun locator => getInputValue br (Handle locator) options) locators).

(* ----------------------------------------------------------------- *)
(** *** src/utils/locator-utils.ts: test ids *)

(** [selectors.setTestIdAttribute(attributeName)] *)
Definition setTestIdAttribute (attributeName : string) : Act unit :=
  fun s =>
    (Returns tt,
     {| world := world s; testIdAttribute := attributeName; ledger := ledger s |}).

(** [page.getByTestId(testId)]: a new Locator for the selector Playwright
    builds from the attribute name set at this moment. *)
Definition Page_getByTestId (br : Browser) (pg : Page) (testId : string) : Act Locator :=
  fun s =>
    lift (Page_locator pg (testIdSelector br (testIdAttribute s) testId) None) s.

(** [[
    if (attributeName) { selectors.setTestIdAttribute(attributeName); }
    return getPage().getByTestId(testId);
    ]]
    An attribute name that is [undefined] or empty is falsy.  The test id
    is a string here; a [RegExp] test id is not represented. *)
Definition getLocatorByTestId (br : Browser) (testId : string)
    (attributeName : option string) : Act Locator :=
  (match attributeName with
   | Some name => if String.eqb name EmptyString then done tt else setTestIdAttribute name
   | None => done tt
   end) ;;
  pg <- lift getPage ;;
  Page_getByTestId br pg testId.

(* ----------------------------------------------------------------- *)
(** *** src/utils/action-utils.ts and tests/pages: checkboxes *)

(** What [getCheckboxes] returns for a label: [isChecked] is
    [checkbox?.checked], [undefined] when the label holds no checkbox. *)
Record CheckboxState : Type := {
  text : string;
  isChecked : option bool
}.

(** [[
    labels.map(label => {
      const checkbox = label.querySelector('input[type="checkbox"]');
      const text = label.innerText.trim();
      return { text, isChecked: checkbox?.checked };
    })
    ]] *)
Definition checkbox_states (br : Browser) (labels : list Label) : list CheckboxState :=
  map (fun label => {| text := trim br (innerText label);
                       isChecked := checkbox label |}) labels.

Definition getCheckboxes (br : Browser) : Act (list CheckboxState) :=
  pg <- lift getPage ;;
  labels <- ask (evalLabelsRequest pg) (checkboxLabels br pg)
              (fun labels => Found (length labels)) ;;
  done (checkbox_states br labels).

(** [checkbox.isChecked] as a condition: [undefined] and [false] are falsy. *)
Definition truthy (b : option bool) : bool :=
  match b with
  | Some true => true
  | _ => false
  end.

(** [expect(received).toEqual(expected)] on lists of strings, with the hard
    [expect]. *)
Definition toEqual (received expected : list string) : Act unit :=
  if list_eq_dec string_dec received expected then done tt
  else fun s => (Throws (ErrorObject "expect(received).toEqual(expected)"), s).

(** tests/pages/category-selection-page.ts:
    [[
    const checkboxes = await getCheckboxes();
    const checkedCheckboxes = checkboxes.filter(checkbox => checkbox.isChecked);
    const checkedTexts = checkedCheckboxes.map(c => c.text);
    expect(checkedTexts).toEqual(expectedCheckedTexts);
    ]] *)
Definition checkCheckboxes (br : Browser) (expectedCheckedTexts : list string) : Act unit :=
  checkboxes <- getCheckboxes br ;;
  let checkedCheckboxes := filter (fun c => truthy (isChecked c)) checkboxes in
  let checkedTexts := map text checkedCheckboxes in
  toEqual checkedTexts expectedCheckedTexts.

(* ----------------------------------------------------------------- *)
(** *** tests/pages/home-page.ts *)

(** [const logo_mercari = () => getLocatorByTestId("mercari-logo");] *)
Definition logo_mercari (br : Browser) : Act Locator :=
  getLocatorByTestId br "mercari-logo" None.

(** [[
    await expectElementToBeVisible(logo_mercari());
    await click(logo_mercari());
    ]] *)
Definition navigateToHomeFromAnywhere (rt : Runtime) (br : Browser) : Act unit :=
  logo <- logo_mercari br ;;
  lift (expectElementToBeVisible rt (Handle logo) None) ;;
  logo <- logo_mercari br ;;
  lift (click rt (Handle logo) None).

(** The value a reply carries, if any. *)
Definition value_of (r : Reply string) : string :=
  match settled r with
  | Returns v => v
  | Throws _ => EmptyString
  end.

(** The replies to the input values of [locators], asked one after the other
    from the [k]-th request on. *)
Fixpoint replies_from (br : Browser) (options : option TimeoutOption) (k : nat)
    (locators : list Locator) : list (Reply string) :=
  match locators with
  | [] => []
  | locator :: more =>
      inputValue br (target locator) options k :: replies_from br options (S k) more
  end.

(** The stage after one more request of the [Browser]. *)
Definition asked (s : Stage) (what : Request) (a : Answer) (spent : Z) : Stage :=
  {| world := later (world s) spent; testIdAttribute := testIdAttribute s;
     ledger := ledger s ++ [{| noted_at := now (world s); request := what;
                               result := a |}] |}.

(** How a request that carries no value went. *)
Definition unit_answer (r : Reply unit) : Answer :=
  match settled r with
  | Returns _ => Done
  | Throws error => Failed error
  end.

End Wider.

(** A browser for the helpers of [Wider], and a stage to start from. *)
Module Scene.

(** Labels: "  Books " ticked, "Music" not ticked, "Games" without a
    checkbox; trimming is left to the identity here. *)
Definition calm : Wider.Browser :=
  {| Wider.loadStateReached := fun _ _ _ => Sample.instantly tt;
     Wider.reloaded := fun _ _ _ => Sample.instantly tt;
     Wider.wentBack := fun _ _ _ => Sample.instantly tt;
     Wider.frameNavigated := fun _ _ => Sample.instantly tt;
     Wider.url := fun _ _ => "https://jp.mercari.com/"%string;
     Wider.inputValue := fun t _ _ =>
       match t with
       | NthOf _ O => Sample.after_ms 30 "first"%string
       | NthOf _ (S O) => Sample.after_ms 10 "second"%string
       | _ => Sample.instantly "third"%string
       end;
     Wider.checkboxLabels := fun _ _ =>
       Sample.instantly
         [ {| Wider.innerText := "Books"%string; Wider.checkbox := Some true |};
           {| Wider.innerText := "Music"%string; Wider.checkbox := Some false |};
           {| Wider.innerText := "Games"%string; Wider.checkbox := None |} ];
     Wider.trim := fun text => text;
     Wider.testIdSelector := fun attribute testId =>
       ("internal:testid=[" ++ attribute ++ "=" ++ testId ++ "]")%string |}.

(** The stage as the configuration leaves it: [testIdAttribute: 'data-testid']. *)
Definition opening : Wider.Stage :=
  {| Wider.world := Sample.dawn; Wider.testIdAttribute := "data-testid"%string;
     Wider.ledger := [] |}.

End Scene.

(* ================================================================= *)
(** * Properties *)

(** ** Worlds *)

Lemma world_ext (w w' : World) :
  now w = now w' -> turn w = turn w' -> minted w = minted w' ->
  page w = page w' -> stdout w = stdout w' -> errors w = errors w' ->
  journal w = journal w' -> w = w'.
Proof.
  destruct w, w'; simpl; intros; subst; reflexivity.
Qed.

Lemma news_app (w w' : World) (entries : list Entry) :
  journal w' = journal w ++ entries -> news w w' = entries.
Proof.
  intros H. unfold news. rewrite H.
  rewrite skipn_app, skipn_all, Nat.sub_diag. reflexivity.
Qed.

Lemma getLocator_runs (input : Input) (options : option LocatorOptions) (w : World) :
  getLocator input options w = (Returns (locator_of input options w), located input w).
Proof.
  destruct input; reflexivity.
Qed.

(** ** The polling loop *)

Section Polling.

Variables (rt : Runtime) (call : Call) (reply : nat -> Reply bool).
Variables (startTime timeoutInMs : Z).

Let sample : Run bool := await call reply Said.

Lemma polling_trail (fuel : nat) (w : World) :
  exists entries left t',
    Trail rt call reply startTime timeoutInMs fuel (turn w) (now w) entries left t' /\
    polling rt fuel sample startTime timeoutInMs w = (left, polled w entries t').
Proof.
  revert w. induction fuel as [|fuel IH]; intros w.
  - exists [], (Returns Starved), (now w). split; [constructor|].
    simpl. unfold ret. f_equal. apply world_ext; simpl; auto using app_nil_r.
  - simpl. unfold bind at 1. unfold Date_now at 1.
    destruct (now w - startTime <? timeoutInMs) eqn:G.
    + apply Z.ltb_lt in G.
      unfold bind at 1. unfold sample at 1, await.
      destruct (settled (reply (turn w))) as [[|]|error] eqn:E.
      * exists [{| at_ms := now w; what := call; went := Said true |}],
          (Returns (Returned true)), (now w + Z.of_N (took (reply (turn w)))).
        split; [now constructor|].
        unfold ret. f_equal. apply world_ext; simpl; auto. lia.
      * unfold bind at 1. unfold sleep at 1.
        match goal with |- context [polling _ _ _ _ _ ?w2] =>
          destruct (IH w2) as (entries & left & t' & HT & HP); rewrite HP
        end.
        simpl in HT.
        eexists (_ :: _ :: entries), left, t'. split.
        -- apply Trail_miss; [exact G | exact E | exact HT].
        -- f_equal. apply world_ext; simpl; auto; [lia|].
           rewrite <- !app_assoc. reflexivity.
      * exists [{| at_ms := now w; what := call; went := Failed error |}],
          (Throws error), (now w + Z.of_N (took (reply (turn w)))).
        split; [now constructor|].
        f_equal. apply world_ext; simpl; auto. lia.
    + apply Z.ltb_ge in G.
      exists [], (Returns Expired), (now w). split; [now constructor|].
      unfold ret. f_equal. apply world_ext; simpl; auto using app_nil_r.
Qed.

End Polling.

(** ** What a trail tells *)

Section TrailFacts.

Variables (rt : Runtime) (call : Call) (reply : nat -> Reply bool).
Variables (startTime timeoutInMs : Z).

Local Abbreviation trail := (Trail rt call reply startTime timeoutInMs).

Lemma Trail_clock fuel k t entries left t' :
  trail fuel k t entries left t' -> t <= t'.
Proof.
  induction 1; lia.
Qed.

(** With a round of fuel for every 100 ms of budget left, and one more, the
    loop is never cut short. *)
Lemma Trail_fed fuel k t entries left t' :
  trail fuel k t entries left t' ->
  (0 < fuel)%nat ->
  timeoutInMs - (t - startTime) <= 100 * (Z.of_nat fuel - 1) ->
  left <> Returns Starved.
Proof.
  induction 1; intros Hpos Hfuel; try discriminate.
  - lia.
  - apply IHTrail; lia.
Qed.

(** The loop starts with a sample whenever the budget is not used up. *)
Lemma Trail_head fuel k t entries left t' :
  trail (S fuel) k t entries left t' ->
  t - startTime < timeoutInMs ->
  exists a rest, entries = {| at_ms := t; what := call; went := a |} :: rest.
Proof.
  inversion 1; subst; intros G; try lia; eauto.
Qed.

(** A sample that raised ends the loop on the spot. *)
Lemma Trail_failed_in fuel k t entries left t' x error :
  trail fuel k t entries left t' ->
  In x entries -> went x = Failed error ->
  left = Throws error /\ exists earlier, entries = earlier ++ [x].
Proof.
  induction 1; simpl; intros Hin Hx; try contradiction.
  - destruct Hin as [<-|[]]. discriminate.
  - destruct Hin as [<-|[]]. simpl in Hx. injection Hx as <-.
    split; [reflexivity|]. now exists [].
  - destruct Hin as [<-|[<-|Hin]]; try discriminate.
    destruct (IHTrail Hin Hx) as (-> & earlier & ->).
    split; [reflexivity|]. now eexists (_ :: _ :: earlier).
Qed.

(** So does a sample that is true. *)
Lemma Trail_true_in fuel k t entries left t' x :
  trail fuel k t entries left t' ->
  In x entries -> went x = Said true ->
  left = Returns (Returned true) /\ exists earlier, entries = earlier ++ [x].
Proof.
  induction 1; simpl; intros Hin Hx; try contradiction.
  - destruct Hin as [<-|[]]. split; [reflexivity|]. now exists [].
  - destruct Hin as [<-|[]]. discriminate.
  - destruct Hin as [<-|[<-|Hin]]; try discriminate.
    destruct (IHTrail Hin Hx) as (-> & earlier & ->).
    split; [reflexivity|]. now eexists (_ :: _ :: earlier).
Qed.

Lemma Trail_thrown_inv fuel k t entries error t' :
  trail fuel k t entries (Throws error) t' ->
  exists earlier t0,
    entries = earlier ++ [{| at_ms := t0; what := call; went := Failed error |}].
Proof.
  remember (Throws error) as left eqn:E.
  induction 1; try discriminate.
  - injection E as <-. now exists [], t.
  - destruct (IHTrail E) as (earlier & t0 & ->).
    now eexists (_ :: _ :: earlier), t0.
Qed.

Lemma Trail_returned_inv fuel k t entries b t' :
  trail fuel k t entries (Returns (Returned b)) t' ->
  b = true /\
  exists earlier t0,
    entries = earlier ++ [{| at_ms := t0; what := call; went := Said true |}].
Proof.
  remember (Returns (Returned b)) as left eqn:E.
  induction 1; try discriminate.
  - injection E as <-. split; [reflexivity|]. now exists [], t.
  - destruct (IHTrail E) as (-> & earlier & t0 & ->).
    split; [reflexivity|]. now eexists (_ :: _ :: earlier), t0.
Qed.

(** No request of the loop is made once the budget is used up. *)
Lemma Trail_in_time fuel k t entries left t' x :
  trail fuel k t entries left t' ->
  startTime <= t ->
  In x entries -> is_sample x = true ->
  t <= at_ms x /\ at_ms x - startTime < timeoutInMs.
Proof.
  induction 1; simpl; intros Hs Hin Hx; try contradiction.
  - destruct Hin as [<-|[]]. simpl. lia.
  - destruct Hin as [<-|[]]. simpl. lia.
  - destruct Hin as [<-|[<-|Hin]].
    + simpl. lia.
    + discriminate.
    + destruct IHTrail as [? ?]; auto; lia.
Qed.

(** A predicate that is never true leaves the loop by its guard only. *)
Lemma Trail_never_true fuel k t entries left t' :
  (forall i, settled (reply i) = Returns false) ->
  trail fuel k t entries left t' ->
  left = Returns Expired \/ left = Returns Starved.
Proof.
  intros Hno. induction 1; auto; rewrite Hno in *; discriminate.
Qed.

Hypothesis call_samples : sampling call = true.

Lemma samples_round t a t1 entries :
  samples ({| at_ms := t; what := call; went := a |}
           :: {| at_ms := t1; what := setTimeoutCall 100; went := Done |}
           :: entries)
  = {| at_ms := t; what := call; went := a |} :: samples entries.
Proof.
  unfold samples. simpl. unfold is_sample at 1. simpl.
  rewrite call_samples. reflexivity.
Qed.

(** When the loop is left by its guard: the budget is used up, the samples
    were 100 ms timers apart, and their number is bounded by the time. *)
Lemma Trail_expired_inv fuel k t entries t' :
  trail fuel k t entries (Returns Expired) t' ->
  let n := Z.of_nat (length (samples entries)) in
  timeoutInMs <= t' - startTime /\
  paced entries = true /\
  Forall (fun x => is_sample x = true -> went x = Said false) entries /\
  100 * n <= t' - t /\
  (n = 0 -> t' = t) /\
  (0 < n -> 100 * (n - 1) < timeoutInMs - (t - startTime)).
Proof.
  remember (Returns Expired) as left eqn:E.
  induction 1; try discriminate.
  - simpl. repeat split; auto; lia.
  - specialize (IHTrail E). cbv zeta in IHTrail.
    destruct IHTrail as (Hup & Hpaced & Hall & Hlow & Hzero & Hlast).
    cbv zeta. rewrite samples_round. cbn [length]. rewrite Nat2Z.inj_succ.
    repeat split.
    + exact Hup.
    + simpl. unfold is_sample at 1. simpl. rewrite call_samples. exact Hpaced.
    + repeat constructor; auto. discriminate.
    + lia.
    + lia.
    + intros _.
      destruct (Z.eq_dec (Z.of_nat (length (samples entries))) 0) as [Hz|Hz].
      * lia.
      * lia.
Qed.

(** With samples answered within [c] ms and timers at most [l] ms late, the
    loop cannot take longer than [100 + c + l] ms per sample. *)
Lemma Trail_expired_upper fuel k t entries t' c l :
  (forall i, Z.of_N (took (reply i)) <= c) ->
  (forall i, Z.of_N (timerLag rt i) <= l) ->
  trail fuel k t entries (Returns Expired) t' ->
  t' - t <= (100 + c + l) * Z.of_nat (length (samples entries)).
Proof.
  intros Hc Hl.
  remember (Returns Expired) as left eqn:E.
  induction 1; try discriminate.
  - simpl. lia.
  - specialize (IHTrail E).
    rewrite samples_round. cbn [length]. rewrite Nat2Z.inj_succ.
    specialize (Hc k). specialize (Hl (S k)). lia.
Qed.

End TrailFacts.

(** ** The pollers, unfolded once *)

Lemma rounds_enough (timeoutInMs : Z) :
  timeoutInMs <= 100 * (Z.of_nat (rounds timeoutInMs) - 1).
Proof.
  unfold rounds. rewrite !Nat2Z.inj_succ.
  destruct (Z.le_gt_cases 0 timeoutInMs) as [Hpos|Hneg].
  - rewrite Z2Nat.id by (apply Z.div_pos; lia).
    pose proof (Z.mul_succ_div_gt timeoutInMs 100). lia.
  - lia.
Qed.

Ltac run_poller w :=
  unfold isElementVisible, isElementHidden, the_budget;
  unfold bind at 1; rewrite getLocator_runs;
  unfold bind at 1; unfold Date_now at 1;
  unfold bind at 1; unfold try_catch;
  match goal with
  | |- context [polling ?rt ?fuel (?sampler ?rt ?l ?o) ?s ?b ?w0] =>
      unfold sampler;
      match goal with
      | |- context [polling rt fuel (await ?c ?r Said) s b w0] =>
          destruct (polling_trail rt c r s b fuel w0)
            as (entries & left & t' & HT & HP);
          rewrite HP; exists entries, left, t'
      end
  end.

Lemma isElementVisible_runs rt tc input options w :
  let locator := locator_of input None w in
  let budget := the_budget tc options in
  exists entries left t',
    Trail rt (isVisibleCall (target locator)) (isVisible rt (target locator) options)
          (now w) budget (rounds budget) (turn w) (now w) entries left t' /\
    left <> Returns Starved /\
    isElementVisible rt tc input options w
    = (Returns (verdict left),
       printed (polled (located input w) entries t')
               (complaint "isElementVisible- " left)).
Proof.
  cbv zeta. run_poller w.
  assert (HT' : Trail rt (isVisibleCall (target (locator_of input None w)))
                  (isVisible rt (target (locator_of input None w)) options)
                  (now w) (orElse (timeout_of options) (SMALL_TIMEOUT tc))
                  (rounds (orElse (timeout_of options) (SMALL_TIMEOUT tc)))
                  (turn w) (now w) entries left t').
  { destruct input; exact HT. }
  split; [exact HT'|]. split.
  - eapply Trail_fed; [exact HT'| unfold rounds; lia |].
    pose proof (rounds_enough (orElse (timeout_of options) (SMALL_TIMEOUT tc))). lia.
  - destruct left as [[b| |]|error]; simpl; unfold ret, bind, console_log; simpl;
      f_equal; apply world_ext; simpl; auto using app_nil_r.
Qed.

Lemma isElementHidden_runs rt tc input options w :
  let locator := locator_of input None w in
  let budget := the_budget tc options in
  exists entries left t',
    Trail rt (isHiddenCall (target locator)) (isHidden rt (target locator) options)
          (now w) budget (rounds budget) (turn w) (now w) entries left t' /\
    left <> Returns Starved /\
    isElementHidden rt tc input options w
    = (Returns (verdict left),
       printed (polled (located input w) entries t')
               (complaint "isElementHidden- " left)).
Proof.
  cbv zeta. run_poller w.
  assert (HT' : Trail rt (isHiddenCall (target (locator_of input None w)))
                  (isHidden rt (target (locator_of input None w)) options)
                  (now w) (orElse (timeout_of options) (SMALL_TIMEOUT tc))
                  (rounds (orElse (timeout_of options) (SMALL_TIMEOUT tc)))
                  (turn w) (now w) entries left t').
  { destruct input; exact HT. }
  split; [exact HT'|]. split.
  - eapply Trail_fed; [exact HT'| unfold rounds; lia |].
    pose proof (rounds_enough (orElse (timeout_of options) (SMALL_TIMEOUT tc))). lia.
  - destruct left as [[b| |]|error]; simpl; unfold ret, bind, console_log; simpl;
      f_equal; apply world_ext; simpl; auto using app_nil_r.
Qed.

Lemma news_polled (input : Input) (w : World) entries t' lines :
  news w (printed (polled (located input w) entries t') lines) = entries.
Proof.
  apply news_app. destruct input; reflexivity.
Qed.

(* ================================================================= *)
(** ** The element-state pollers *)

Lemma poller_absorbs rt call reply startTime budget fuel k input w entries left t'
    name (poller : Run bool) :
  Trail rt call reply startTime budget fuel k (now w) entries left t' ->
  poller w = (Returns (verdict left),
              printed (polled (located input w) entries t') (complaint name left)) ->
  absorbs name poller w.
Proof.
  intros HT Hrun. unfold absorbs. rewrite Hrun. cbn [fst snd].
  rewrite news_polled. split; [eauto|].
  intros x error Hin Hx.
  eapply Trail_failed_in in HT; [|exact Hin|exact Hx].
  destruct HT as (-> & earlier & ->).
  repeat split; eauto.
  destruct input; reflexivity.
Qed.

(** C1 (as amended).  [isElementVisible] and [isElementHidden] never throw:
    for every runtime, input, timeout option and world they return a
    boolean.  An exception raised by a sample of the predicate is caught and
    printed on the console under the function's name; the sample that raised
    is the last request the function makes (polling does not go on, whatever
    is left of the budget), and the function returns false. *)
Theorem pollers_absorb_exceptions rt tc input options w :
  absorbs "isElementVisible- " (isElementVisible rt tc input options) w /\
  absorbs "isElementHidden- " (isElementHidden rt tc input options) w.
Proof.
  split.
  - destruct (isElementVisible_runs rt tc input options w)
      as (entries & left & t' & HT & _ & Hrun).
    eapply poller_absorbs; eauto.
  - destruct (isElementHidden_runs rt tc input options w)
      as (entries & left & t' & HT & _ & Hrun).
    eapply poller_absorbs; eauto.
Qed.

(** C1 as stated fails.  The first sample raises and the element is visible
    from then on, with a budget of 300 ms: polling stops after that one
    sample, at 0 ms, and the answer is false; a poller that took the
    exception for a "not yet true" sample would have gone on and returned
    true. *)
Lemma exception_ends_polling :
  let run := isElementVisible Sample.flaky Sample.budgets (Selector "#cart")
               (Sample.within 300) Sample.dawn in
  fst run = Returns false /\
  length (samples (news Sample.dawn (snd run))) = 1%nat /\
  elapsed Sample.dawn (snd run) = 0 /\
  fst (AsSpecified.isElementVisible Sample.flaky Sample.budgets (Selector "#cart")
         (Sample.within 300) Sample.dawn) = Returns true.
Proof.
  vm_compute. repeat split.
Qed.

(** A witness for C1: with the flaky browser the theorem's premise holds (the
    only sample raised) and its conclusion is the console line. *)
Lemma pollers_absorb_exceptions_witness :
  stdout (snd (isElementVisible Sample.flaky Sample.budgets (Selector "#cart")
                 (Sample.within 300) Sample.dawn))
  = ["isElementVisible- Execution context was destroyed"%string].
Proof.
  destruct (pollers_absorb_exceptions Sample.flaky Sample.budgets (Selector "#cart")
              (Sample.within 300) Sample.dawn) as [[_ H] _].
  specialize (H {| at_ms := 0;
                   what := isVisibleCall (OnPage 7%nat "#cart" None);
                   went := Failed (ErrorObject "Execution context was destroyed") |}
                (ErrorObject "Execution context was destroyed")).
  destruct H as (_ & _ & H).
  - vm_compute. left. reflexivity.
  - reflexivity.
  - exact H.
Defined.

(** C2 (as amended).  For every positive budget, [isElementVisible] samples
    the predicate at once, returns true as soon as a sample is true, and
    returns true in no other case.  For a predicate that is always false it
    returns false, not before the budget is used up; every sample is taken
    while the budget lasts and is followed by one 100 ms timer; the number
    [n] of samples is at least 1, at most one per started 100 ms of budget,
    and when samples are answered within [c] ms and timers are at most [l] ms
    late the budget is no more than [(100 + c + l) * n]: at least 3 samples
    for a 300 ms budget when [c + l < 50]. *)
Theorem visible_poll_schedule rt tc input options w :
  let budget := the_budget tc options in
  let sampled := target (locator_of input None w) in
  let run := isElementVisible rt tc input options w in
  let entries := news w (snd run) in
  let n := Z.of_nat (length (samples entries)) in
  0 < budget ->
  (exists a rest,
     entries = {| at_ms := now w; what := isVisibleCall sampled; went := a |} :: rest) /\
  (forall x, In x entries -> went x = Said true ->
     fst run = Returns true /\ exists earlier, entries = earlier ++ [x]) /\
  (fst run = Returns true ->
     exists earlier x, entries = earlier ++ [x] /\ went x = Said true) /\
  ((forall i, settled (isVisible rt sampled options i) = Returns false) ->
     fst run = Returns false /\
     budget <= elapsed w (snd run) /\
     paced entries = true /\
     Forall (fun x => is_sample x = true -> at_ms x - now w < budget) entries /\
     0 < n /\ 100 * (n - 1) < budget /\
     forall c l,
       (forall i, Z.of_N (took (isVisible rt sampled options i)) <= c) ->
       (forall i, Z.of_N (timerLag rt i) <= l) ->
       budget <= (100 + c + l) * n /\
       (budget = 300 -> c + l < 50 -> 3 <= n)).
Proof.
  cbv zeta. intros Hbudget.
  destruct (isElementVisible_runs rt tc input options w)
    as (entries & left & t' & HT & Hfed & Hrun).
  cbv zeta in HT. rewrite Hrun. cbn [fst snd]. rewrite news_polled.
  repeat apply conj.
  - eapply Trail_head; [exact HT|]. lia.
  - intros x Hin Hx. eapply Trail_true_in in Hin; eauto.
    destruct Hin as (-> & earlier & ->). eauto.
  - intros Hr.
    destruct left as [[[|]| |]|error]; try discriminate.
    apply Trail_returned_inv in HT. destruct HT as (_ & earlier & t0 & ->).
    eauto.
  - intros Hno.
    pose proof HT as Hleft. apply Trail_never_true in Hleft; [|exact Hno].
    destruct Hleft as [->| ->]; [|contradiction].
    pose proof HT as Hinv. apply Trail_expired_inv in Hinv; [|reflexivity].
    cbv zeta in Hinv.
    destruct Hinv as (Hup & Hpaced & _ & Hlow & Hzero & Hlast).
    unfold elapsed, printed, polled. cbn [now verdict complaint].
    assert (Hn : 0 < Z.of_nat (length (samples entries))).
    { destruct (Z.eq_dec (Z.of_nat (length (samples entries))) 0) as [Hz|Hz];
        [specialize (Hzero Hz)|]; lia. }
    repeat apply conj; try assumption; try reflexivity.
    + apply Forall_forall. intros x Hin Hx.
      eapply Trail_in_time in Hin; eauto; lia.
    + specialize (Hlast Hn). lia.
    + intros c l Hc Hl.
      eapply Trail_expired_upper in HT; [|reflexivity|exact Hc|exact Hl].
      split; [lia|]. intros H300 Hcl. nia.
Qed.

(** A witness for C2: a browser that answers at once, exact timers, a budget
    of 300 ms: at least three samples. *)
Lemma visible_poll_schedule_witness :
  3 <= Z.of_nat (length (samples (news Sample.dawn
         (snd (isElementVisible Sample.quiet Sample.budgets (Selector "#cart")
                 (Sample.within 300) Sample.dawn))))).
Proof.
  assert (Hbudget : 0 < the_budget Sample.budgets (Sample.within 300))
    by reflexivity.
  pose proof (visible_poll_schedule Sample.quiet Sample.budgets (Selector "#cart")
                (Sample.within 300) Sample.dawn Hbudget) as (_ & _ & _ & H).
  destruct H as (_ & _ & _ & _ & _ & _ & H).
  - intros i. reflexivity.
  - destruct (H 0 0) as [_ H3].
    + intros i. simpl. lia.
    + intros i. simpl. lia.
    + apply H3; [reflexivity | lia].
Defined.

(** C2 as stated fails.  With a browser that needs 250 ms for every answer
    and a budget of 300 ms the predicate is sampled once, not three times:
    after the sample and the 100 ms timer, 350 ms have gone by. *)
Lemma slow_browser_is_sampled_once :
  let run := isElementVisible Sample.slow Sample.budgets (Selector "#cart")
               (Sample.within 300) Sample.dawn in
  fst run = Returns false /\
  length (samples (news Sample.dawn (snd run))) = 1%nat /\
  elapsed Sample.dawn (snd run) = 350.
Proof.
  vm_compute. repeat split.
Qed.

(** A budget that is not positive: no sample at all, even of an element that
    is visible. *)
Remark spent_budget_is_not_sampled :
  let run := isElementVisible Sample.shown Sample.budgets (Selector "#cart")
               (Sample.within (-1)) Sample.dawn in
  fst run = Returns false /\ news Sample.dawn (snd run) = [].
Proof.
  vm_compute. split; reflexivity.
Qed.

(* ================================================================= *)
(** ** The checked state *)

(** A poller asks for nothing but its samples and its timers. *)
Lemma Trail_whats rt call reply startTime budget fuel k t entries left t' :
  Trail rt call reply startTime budget fuel k t entries left t' ->
  Forall (fun x => what x = call \/ what x = setTimeoutCall 100) entries.
Proof.
  induction 1.
  - constructor.
  - constructor.
  - constructor; [now left | constructor].
  - constructor; [now left | constructor].
  - constructor; [now left|]. constructor; [now right | assumption].
Qed.

(** C9.  When the visibility poll of [isElementChecked] ends with false, so
    does [isElementChecked], whatever the checked state of the element: the
    world it leaves is the one the poll left, and no request for the checked
    state is among the requests made. *)
Theorem unseen_is_unchecked rt tc input options w :
  fst (isElementVisible rt tc input options w) = Returns false ->
  isElementChecked rt tc input options w
  = (Returns false, snd (isElementVisible rt tc input options w)) /\
  existsb asks_checked (news w (snd (isElementChecked rt tc input options w))) = false.
Proof.
  intros Hunseen.
  assert (Hrun : isElementChecked rt tc input options w
                 = (Returns false, snd (isElementVisible rt tc input options w))).
  { unfold isElementChecked. unfold bind at 1. unfold try_catch.
    unfold bind at 1.
    destruct (isElementVisible rt tc input options w) as [seen w'].
    cbn [fst snd] in *. subst seen. reflexivity. }
  split; [exact Hrun|].
  rewrite Hrun. cbn [snd].
  destruct (isElementVisible_runs rt tc input options w)
    as (entries & left & t' & HT & _ & Hpoll).
  rewrite Hpoll. cbn [snd]. rewrite news_polled.
  apply Trail_whats in HT. clear - HT.
  induction HT as [|x entries' Hx _ IH]; [reflexivity|].
  cbn [existsb]. rewrite IH. unfold asks_checked.
  destruct Hx as [-> | ->]; reflexivity.
Qed.

(** A witness for C9: a checkbox that is checked but never visible. *)
Lemma unseen_is_unchecked_witness :
  fst (isElementChecked Sample.ticked_unseen Sample.budgets (Selector "#agree")
         (Sample.within 300) Sample.dawn) = Returns false.
Proof.
  destruct (unseen_is_unchecked Sample.ticked_unseen Sample.budgets
              (Selector "#agree") (Sample.within 300) Sample.dawn) as [H _].
  - reflexivity.
  - rewrite H. reflexivity.
Defined.

(* ================================================================= *)
(** ** Click and navigate *)

(** C3.  For every input and options: when the click of [clickAndNavigate]
    is performed and the wait for the 'framenavigated' event, given the
    budget [options?.timeout || STANDARD_TIMEOUT] (the standard budget when
    there is no override), is rejected, [clickAndNavigate] throws that very
    error.  Nothing else is asked of the browser (no load state is awaited),
    and [testInfo.errors] is as it was. *)
Theorem navigation_timeout_propagates rt tc input options w error :
  let budget := orElse (click_timeout_of options) (STANDARD_TIMEOUT tc) in
  let clicked := target (locator_of input None w) in
  settled (clickOn rt clicked options (turn w)) = Returns tt ->
  settled (waitForFrameNavigated rt (page w) budget (S (turn w))) = Throws error ->
  let run := clickAndNavigate rt tc input options w in
  (click_timeout_of options = None -> budget = STANDARD_TIMEOUT tc) /\
  fst run = Throws error /\
  errors (snd run) = errors w /\
  news w (snd run)
  = [ {| at_ms := now w; what := clickCall clicked; went := Done |};
      {| at_ms := now w; what := waitForEventCall (page w) budget;
         went := Failed error |} ].
Proof.
  cbv zeta. intros Hclick Hevent.
  split; [intros ->; reflexivity|].
  unfold clickAndNavigate, bind, Promise_all, click, bind,
    Page_waitForEvent_framenavigated, bind, getPage, await.
  rewrite getLocator_runs.
  assert (Hturn : turn (located input w) = turn w) by (destruct input; reflexivity).
  assert (Hpage : page (located input w) = page w) by (destruct input; reflexivity).
  assert (Hnow : now (located input w) = now w) by (destruct input; reflexivity).
  rewrite Hturn, Hclick. cbn [turn page answered].
  rewrite Hpage, Hturn, Hevent. cbn [fst snd errors journal answered].
  repeat split.
  - destruct input; reflexivity.
  - apply news_app. cbn [journal]. rewrite <- app_assoc.
    rewrite Hnow. destruct input; reflexivity.
Qed.

(** A witness for C3: a click that is never followed by a navigation, with
    no override of the timeout. *)
Lemma navigation_timeout_propagates_witness :
  fst (clickAndNavigate Sample.stays Sample.budgets (Selector "#buy") None Sample.dawn)
  = Throws (ErrorObject
      "page.waitForEvent: Timeout exceeded while waiting for event").
Proof.
  refine (proj1 (proj2 (navigation_timeout_propagates Sample.stays Sample.budgets
                          (Selector "#buy") None Sample.dawn _ _ _))).
  - reflexivity.
  - reflexivity.
Defined.

(* ================================================================= *)
(** ** A timeout override of 0 *)

Lemma await_ext {A : Type} call (reply reply' : nat -> Reply A) shown w :
  (forall i, reply i = reply' i) ->
  await call reply shown w = await call reply' shown w.
Proof.
  intros H. unfold await. rewrite H. reflexivity.
Qed.

Lemma bind_ext {A B : Type} (m : Run A) (k k' : A -> Run B) w :
  (forall a w0, k a w0 = k' a w0) -> bind m k w = bind m k' w.
Proof.
  intros H. unfold bind. destruct (m w) as [[a|error] w0]; [apply H | reflexivity].
Qed.

Lemma bind_ext_l {A B : Type} (m m' : Run A) (k : A -> Run B) w :
  m w = m' w -> bind m k w = bind m' k w.
Proof.
  intros H. unfold bind. rewrite H. reflexivity.
Qed.

Lemma try_catch_ext {A : Type} (body body' : Run A) handler w :
  body w = body' w -> try_catch body handler w = try_catch body' handler w.
Proof.
  intros H. unfold try_catch. rewrite H. reflexivity.
Qed.

Lemma polling_ext rt fuel (sample sample' : Run bool) startTime budget w :
  (forall w0, sample w0 = sample' w0) ->
  polling rt fuel sample startTime budget w
  = polling rt fuel sample' startTime budget w.
Proof.
  intros H. revert w. induction fuel as [|fuel IH]; intros w; [reflexivity|].
  simpl. unfold bind. unfold Date_now.
  destruct (now w - startTime <? budget); [|reflexivity].
  rewrite H. destruct (sample' w) as [[[|]|error] w1]; try reflexivity.
  destruct (sleep rt 100 w1) as [[[]|error] w2]; [apply IH | reflexivity].
Qed.

(** C10 (as amended).  An override of 0 ms is falsy: each of the four
    operations computes the same budget from [{ timeout: 0 }] as from no
    options.  For [isElementAttached] and [getLocatorCount], which use their
    options for nothing else, the two calls are equal.  [isElementVisible]
    and [clickAndNavigate] also hand the options object on to Playwright
    ([isVisible], [click]): the two calls are equal whenever that request
    is answered alike for [{ timeout: 0 }] and for no options. *)
Theorem zero_override_is_falsy rt tc input w :
  let zero := Some {| timeout := Some 0 |} in
  let zero_click := Some {| click_timeout := Some 0; loadState := None |} in
  isElementAttached rt tc input zero w = isElementAttached rt tc input None w /\
  getLocatorCount rt tc input zero w = getLocatorCount rt tc input None w /\
  the_budget tc zero = the_budget tc None /\
  ((forall t i, isVisible rt t zero i = isVisible rt t None i) ->
   isElementVisible rt tc input zero w = isElementVisible rt tc input None w) /\
  orElse (click_timeout_of zero_click) (STANDARD_TIMEOUT tc)
  = orElse (click_timeout_of None) (STANDARD_TIMEOUT tc) /\
  ((forall t i, clickOn rt t zero_click i = clickOn rt t None i) ->
   clickAndNavigate rt tc input zero_click w = clickAndNavigate rt tc input None w).
Proof.
  cbv zeta. repeat apply conj; try reflexivity.
  - intros Hsame.
    unfold isElementVisible.
    apply bind_ext. intros locator w1.
    change (orElse (timeout_of (Some {| timeout := Some 0 |})) (SMALL_TIMEOUT tc))
      with (orElse (timeout_of None) (SMALL_TIMEOUT tc)).
    apply bind_ext. intros startTime w2.
    apply bind_ext_l, try_catch_ext, polling_ext.
    intros w0. unfold Locator_isVisible. apply await_ext. intros i. apply Hsame.
  - intros Hsame.
    unfold clickAndNavigate.
    change (orElse (click_timeout_of (Some {| click_timeout := Some 0;
                                              loadState := None |}))
              (STANDARD_TIMEOUT tc))
      with (orElse (click_timeout_of None) (STANDARD_TIMEOUT tc)).
    change (loadState_of (Some {| click_timeout := Some 0; loadState := None |}))
      with (loadState_of None).
    apply bind_ext_l. unfold Promise_all.
    assert (Hclick : click rt input (Some {| click_timeout := Some 0;
                                             loadState := None |}) w
                     = click rt input None w).
    { unfold click. apply bind_ext. intros locator w0.
      apply await_ext. intros i. apply Hsame. }
    rewrite Hclick. reflexivity.
Qed.

(** A witness for C10: the quiet browser does not look at the options. *)
Lemma zero_override_is_falsy_witness :
  isElementVisible Sample.quiet Sample.budgets (Selector "#cart")
    (Some {| timeout := Some 0 |}) Sample.dawn
  = isElementVisible Sample.quiet Sample.budgets (Selector "#cart") None Sample.dawn
  /\
  clickAndNavigate Sample.quiet Sample.budgets (Selector "#buy")
    (Some {| click_timeout := Some 0; loadState := None |}) Sample.dawn
  = clickAndNavigate Sample.quiet Sample.budgets (Selector "#buy") None Sample.dawn.
Proof.
  destruct (zero_override_is_falsy Sample.quiet Sample.budgets (Selector "#cart")
              Sample.dawn) as (_ & _ & _ & Hvisible & _ & _).
  destruct (zero_override_is_falsy Sample.quiet Sample.budgets (Selector "#buy")
              Sample.dawn) as (_ & _ & _ & _ & _ & Hclick).
  split.
  - apply Hvisible. intros t i. reflexivity.
  - apply Hclick. intros t i. reflexivity.
Defined.

(** C10 as stated fails for [clickAndNavigate].  The element becomes
    clickable after 40 s and the page navigates on its own after 1 s.  With
    [{ timeout: 0 }] the options reach [click], which then waits without a
    limit: the call succeeds.  Without options [click] gives up after the
    configured action timeout: the call throws. *)
Lemma zero_override_reaches_click :
  fst (clickAndNavigate Sample.patient Sample.budgets (Selector "#buy")
         (Some {| click_timeout := Some 0; loadState := None |}) Sample.dawn)
  = Returns tt /\
  fst (clickAndNavigate Sample.patient Sample.budgets (Selector "#buy")
         None Sample.dawn)
  = Throws (ErrorObject "locator.click: Timeout exceeded").
Proof.
  split; reflexivity.
Qed.

(* ================================================================= *)
(** ** The locator resolver *)

(** C6.  [getLocator] hands a Locator back as it is, in an unchanged world,
    so resolving its result again changes nothing.  For a selector string
    every call builds a new Locator object (a new serial) for the page that
    is current at the time of the call: two calls give two objects for the
    same target, and after [setPage] the same selector is resolved against
    the new page. *)
Theorem getLocator_passes_handles_and_builds_afresh :
  (forall locator options w,
     getLocator (Handle locator) options w = (Returns locator, w)) /\
  (forall locator options options' w,
     (resolved <- getLocator (Handle locator) options ;;
      getLocator (Handle resolved) options') w
     = getLocator (Handle locator) options w) /\
  (forall selector options w,
     getLocator (Selector selector) options w
     = (Returns {| serial := minted w;
                   target := OnPage (page w) selector options |},
        located (Selector selector) w)) /\
  (forall selector options w,
     exists one two w',
       (one <- getLocator (Selector selector) options ;;
        two <- getLocator (Selector selector) options ;;
        ret (one, two)) w = (Returns (one, two), w') /\
       serial one <> serial two /\
       target one = OnPage (page w) selector options /\
       target two = target one) /\
  (forall selector options pg w,
     exists before after w',
       (before <- getLocator (Selector selector) options ;;
        setPage pg ;;
        after <- getLocator (Selector selector) options ;;
        ret (before, after)) w = (Returns (before, after), w') /\
       target before = OnPage (page w) selector options /\
       target after = OnPage pg selector options).
Proof.
  repeat apply conj.
  - reflexivity.
  - reflexivity.
  - reflexivity.
  - intros selector options w. do 3 eexists.
    split; [reflexivity|]. cbn [serial target minted]. repeat split. lia.
  - intros selector options pg w. do 3 eexists.
    split; [reflexivity|]. split; reflexivity.
Qed.

(* ================================================================= *)
(** ** All locators *)

Lemma nth_error_seq_map {A : Type} (f : nat -> A) n i :
  (i < n)%nat -> nth_error (map f (seq 0 n)) i = Some (f i).
Proof.
  intros Hi. rewrite nth_error_map, nth_error_seq.
  destruct (Nat.ltb_spec i n); [reflexivity | lia].
Qed.

Lemma firstn_1_skipn {A : Type} (l : list A) i a :
  nth_error l i = Some a -> firstn 1 (skipn i l) = [a].
Proof.
  revert i. induction l as [|b l IH]; intros [|i]; simpl; try discriminate.
  - intros [= ->]. reflexivity.
  - apply IH.
Qed.

(** C7.  When the input denotes the nodes [nodes] (in document order),
    [getAllLocators] returns, without throwing, as many locators: the
    [i]-th is the [i]-th match of the input and denotes the [i]-th node alone.
    When nothing matches the result is the empty list. *)
Theorem getAllLocators_in_document_order rt input options w nodes :
  let base := target (locator_of input options w) in
  settled (elements rt base (turn w)) = Returns nodes ->
  exists handles w',
    getAllLocators rt input options w = (Returns handles, w') /\
    map target handles = map (NthOf base) (seq 0 (length nodes)) /\
    (forall i node,
       nth_error nodes i = Some node ->
       exists handle,
         nth_error handles i = Some handle /\
         settled (elements rt (target handle) (turn w)) = Returns [node]) /\
    (nodes = [] -> handles = []).
Proof.
  cbv zeta. intros Hnodes.
  assert (Hall : forall locator w0,
            turn w0 = turn w -> target locator = target (locator_of input options w) ->
            exists w',
              Locator_all rt locator w0
              = (Returns (map (fun i => {| serial := minted w0 + i;
                                           target := NthOf (target locator) i |})
                              (seq 0 (length nodes))), w')).
  { intros locator w0 Hturn Htarget.
    unfold Locator_all, bind, await. rewrite Hturn, Htarget, Hnodes.
    eexists. reflexivity. }
  assert (Hrun : exists m w',
            getAllLocators rt input options w
            = (Returns (map (fun i => {| serial := m + i;
                                         target := NthOf (target (locator_of input options w)) i |})
                            (seq 0 (length nodes))), w')).
  { destruct input as [selector|locator].
    - unfold getAllLocators. unfold bind at 1. unfold getPage.
      unfold bind at 1. unfold Page_locator.
      match goal with
      | |- context [Locator_all rt ?l ?w0] =>
          destruct (Hall l w0 eq_refl eq_refl) as (w' & ->)
      end.
      eauto.
    - destruct (Hall locator w eq_refl eq_refl) as (w' & H).
      unfold getAllLocators. rewrite H. eauto. }
  destruct Hrun as (m & w' & ->).
  eexists _, w'. split; [reflexivity|]. repeat apply conj.
  - rewrite map_map. reflexivity.
  - intros i node Hi.
    assert (Hlt : (i < length nodes)%nat)
      by (apply nth_error_Some; rewrite Hi; discriminate).
    eexists. split; [apply nth_error_seq_map; exact Hlt|].
    cbn [target elements settled]. rewrite Hnodes.
    rewrite (firstn_1_skipn _ _ _ Hi). reflexivity.
  - intros ->. reflexivity.
Qed.

(** A witness for C7: three matching nodes, three locators, the second of
    which denotes the second node. *)
Lemma getAllLocators_in_document_order_witness :
  exists handles w',
    getAllLocators Sample.three_items (Selector ".item") None Sample.dawn
    = (Returns handles, w') /\
    length handles = 3%nat /\
    exists handle,
      nth_error handles 1 = Some handle /\
      settled (elements Sample.three_items (target handle) 0) = Returns [12%nat].
Proof.
  destruct (getAllLocators_in_document_order Sample.three_items (Selector ".item")
              None Sample.dawn [11; 12; 13]%nat eq_refl)
    as (handles & w' & Hrun & Htargets & Hnth & _).
  exists handles, w'. split; [exact Hrun|]. split.
  - rewrite <- (length_map target), Htargets, length_map, length_seq. reflexivity.
  - apply (Hnth 1%nat 12%nat). reflexivity.
Defined.

(* ================================================================= *)
(** ** Soft assertions *)

Lemma soft_failure_is_recorded rt input options w error :
  soft_of options = Some true ->
  settled (toBeVisible rt (target (locator_of input None w))
             (expect_timeout_of options) (turn w)) = Throws error ->
  exists w',
    expectElementToBeVisible rt input options w = (Returns tt, w') /\
    errors w' = errors w ++ [{| error_message := describe error |}].
Proof.
  intros Hsoft Hfail.
  unfold expectElementToBeVisible, getLocatorAndAssert, bind.
  rewrite getLocator_runs. unfold ret. cbn [fst snd].
  unfold toBeVisible_, try_catch, await.
  assert (Hturn : turn (located input w) = turn w) by (destruct input; reflexivity).
  rewrite Hturn, Hfail.
  unfold fails, getExpectWithSoftOption. rewrite Hsoft. cbn [softly].
  eexists. split; [reflexivity|].
  destruct input; reflexivity.
Qed.

Lemma soft_failures_accumulate rt inputs options w :
  soft_of options = Some true ->
  (forall t budget i, exists error, settled (toBeVisible rt t budget i) = Throws error) ->
  exists w',
    expectAllToBeVisible rt inputs options w = (Returns tt, w') /\
    length (errors w') = (length (errors w) + length inputs)%nat.
Proof.
  intros Hsoft Hfail. revert w.
  induction inputs as [|input inputs IH]; intros w.
  - exists w. split; [reflexivity|]. simpl. lia.
  - destruct (Hfail (target (locator_of input None w))
                (expect_timeout_of options) (turn w)) as [error Herror].
    destruct (soft_failure_is_recorded rt input options w error Hsoft Herror)
      as (w1 & Hrun & Herrors).
    destruct (IH w1) as (w' & Hrest & Hlen).
    exists w'. split.
    + cbn [expectAllToBeVisible]. unfold bind. rewrite Hrun. exact Hrest.
    + rewrite Hlen, Herrors, length_app. simpl. lia.
Qed.

(** C5.  [assertAllSoftAssertions] throws if and only if [testInfo.errors]
    is not empty, and leaves the list as it is.  In particular, after a
    batch of [N] soft expectations that all failed, recorded from an empty
    list: the batch itself did not throw, the list has length [N], and the
    one call of [assertAllSoftAssertions] throws exactly when [N] is not 0. *)
Theorem assertAllSoftAssertions_fails_iff_errors :
  (forall w,
     ((exists error, fst (assertAllSoftAssertions w) = Throws error)
      <-> errors w <> []) /\
     (errors w = [] -> fst (assertAllSoftAssertions w) = Returns tt) /\
     snd (assertAllSoftAssertions w) = w) /\
  (forall rt inputs options w,
     soft_of options = Some true ->
     (forall t budget i, exists error, settled (toBeVisible rt t budget i) = Throws error) ->
     errors w = [] ->
     let batch := expectAllToBeVisible rt inputs options w in
     let final := assertAllSoftAssertions (snd batch) in
     fst batch = Returns tt /\
     length (errors (snd batch)) = length inputs /\
     length (errors (snd final)) = length inputs /\
     ((exists error, fst final = Throws error) <-> length inputs <> 0%nat) /\
     (length inputs = 0%nat -> fst final = Returns tt)).
Proof.
  assert (Hone : forall w,
     ((exists error, fst (assertAllSoftAssertions w) = Throws error)
      <-> errors w <> []) /\
     (errors w = [] -> fst (assertAllSoftAssertions w) = Returns tt) /\
     snd (assertAllSoftAssertions w) = w).
  { intros w. unfold assertAllSoftAssertions, toHaveLength, fails, expect.
    cbn [softly]. destruct (errors w) as [|e es]; cbn [length Nat.eqb].
    - repeat split.
      + intros [error H]. discriminate.
      + intros H. contradiction.
    - repeat split.
      + intros _. discriminate.
      + intros _. eexists. reflexivity.
      + discriminate. }
  split; [exact Hone|].
  intros rt inputs options w Hsoft Hfail Hempty. cbv zeta.
  destruct (soft_failures_accumulate rt inputs options w Hsoft Hfail)
    as (w' & Hrun & Hlen).
  rewrite Hrun. cbn [fst snd]. rewrite Hempty in Hlen. simpl in Hlen.
  destruct (Hone w') as (Hiff & Hpass & Hsame).
  rewrite Hsame. repeat apply conj; auto.
  - intros H. apply Hiff in H. intros Hz. apply H.
    apply length_zero_iff_nil. lia.
  - intros H. apply Hiff. intros Hnil. rewrite Hnil in Hlen. simpl in Hlen. lia.
  - intros Hz. apply Hpass. apply length_zero_iff_nil. lia.
Qed.

(** A witness for C5: two soft expectations that fail, then the final
    assertion, which throws. *)
Lemma assertAllSoftAssertions_fails_iff_errors_witness :
  let batch := expectAllToBeVisible Sample.nothing_shows
                 [Selector "#cart"; Selector "#total"]
                 (Some {| expect_timeout := None; soft := Some true |})
                 Sample.dawn in
  length (errors (snd batch)) = 2%nat /\
  exists error, fst (assertAllSoftAssertions (snd batch)) = Throws error.
Proof.
  destruct assertAllSoftAssertions_fails_iff_errors as [_ H].
  destruct (H Sample.nothing_shows [Selector "#cart"; Selector "#total"]
              (Some {| expect_timeout := None; soft := Some true |}) Sample.dawn)
    as (_ & Hlen & _ & Hiff & _).
  - reflexivity.
  - intros t budget i. eexists. reflexivity.
  - reflexivity.
  - cbv zeta. split; [exact Hlen|]. apply Hiff. discriminate.
Defined.

(* ================================================================= *)
(** ** The logger and the reporter *)

Section Reporter.

Import CustomLogger.

(** One more line on both transports. *)
Lemma logger_info_appends lf at_time text out :
  logger_info lf at_time text out
  = {| console := console out ++ [format lf at_time info text];
       info_log := info_log out ++ [format lf at_time info text] |}.
Proof.
  reflexivity.
Qed.

(** C8.  Whatever the level and the message, a call of the logger either
    writes nothing (the level is below the logger's) or appends to both
    transports the one line [<timestamp> [<level>]: <message>], where
    timestamp, level and message are the fields the format pipeline has
    filled in by then: the time of the call, and the level and the message
    as colorized. *)
Theorem log_line_format lf at_time l text out :
  let line := (toISOString lf at_time ++ " [" ++ colorize lf l (level_name l)
               ++ "]: " ++ colorize lf l text)%string in
  (forall i, printf i = (timestamp i ++ " [" ++ level i ++ "]: " ++ message i)%string) /\
  (logger_log lf at_time l text out = out \/
   logger_log lf at_time l text out
   = {| console := console out ++ [line]; info_log := info_log out ++ [line] |}) /\
  ((rank l <= rank info)%nat ->
   logger_log lf at_time l text out
   = {| console := console out ++ [line]; info_log := info_log out ++ [line] |}).
Proof.
  cbv zeta. split; [reflexivity|].
  destruct l; split; try (now left); try (now right); try reflexivity;
    cbn [rank]; lia.
Qed.

(** A witness for C8: the error level is logged. *)
Lemma log_line_format_witness :
  console (logger_log Sample.ansi 0 error "boom" Sample.blank)
  = [("1970-01-01T00:00:00.000Z [" ++ ESC ++ "[31merror" ++ ESC ++ "[39m]: "
      ++ ESC ++ "[31mboom" ++ ESC ++ "[39m")%string].
Proof.
  destruct (log_line_format Sample.ansi 0 error "boom" Sample.blank) as (_ & _ & H).
  rewrite H; [reflexivity|]. cbn [rank]. lia.
Defined.

(** C4.  [onTestBegin] logs exactly one info line, "Starting Test Case:"
    and the title.  [onTestEnd] logs exactly one info line for a result that
    passed (in green) or was skipped (in yellow) and none for a result that
    failed.  Begun and then ended, the line of the beginning comes first. *)
Theorem reporter_logs_begin_then_end lf t0 t1 test result out :
  let starting := format lf t0 info ("Starting Test Case: " ++ title test)%string in
  let passing := format lf t1 info
        (ESC ++ "[32mTest Case Passed: " ++ title test ++ ESC ++ "[0m")%string in
  let skipping := format lf t1 info
        (ESC ++ "[33mTest Case Skipped: " ++ title test ++ ESC ++ "[0m")%string in
  let more (lines : list string) (o : Outputs) : Outputs :=
    {| console := console o ++ lines; info_log := info_log o ++ lines |} in
  onTestBegin lf t0 test out = more [starting] out /\
  (status result = passed -> onTestEnd lf t1 test result out = more [passing] out) /\
  (status result = skipped -> onTestEnd lf t1 test result out = more [skipping] out) /\
  (status result = failed -> onTestEnd lf t1 test result out = out) /\
  (status result = passed ->
   onTestEnd lf t1 test result (onTestBegin lf t0 test out)
   = more [starting; passing] out) /\
  (status result = skipped ->
   onTestEnd lf t1 test result (onTestBegin lf t0 test out)
   = more [starting; skipping] out) /\
  (status result = failed ->
   onTestEnd lf t1 test result (onTestBegin lf t0 test out)
   = more [starting] out).
Proof.
  cbv zeta. unfold onTestBegin, onTestEnd.
  repeat apply conj; try reflexivity; intros ->; rewrite ?logger_info_appends;
    cbn [console info_log]; rewrite <- ?app_assoc; try reflexivity.
  - destruct (result_error result); reflexivity.
  - destruct (result_error result); reflexivity.
Qed.

(** A witness for C4: a test that begins and passes. *)
Lemma reporter_logs_begin_then_end_witness :
  console (onTestEnd Sample.ansi 9 {| title := "login" |}
             {| status := passed; result_error := None |}
             (onTestBegin Sample.ansi 1 {| title := "login" |} Sample.blank))
  = [format Sample.ansi 1 info "Starting Test Case: login";
     format Sample.ansi 9 info
       (ESC ++ "[32mTest Case Passed: login" ++ ESC ++ "[0m")%string].
Proof.
  destruct (reporter_logs_begin_then_end Sample.ansi 1 9 {| title := "login" |}
              {| status := passed; result_error := None |} Sample.blank)
    as (_ & _ & _ & _ & H & _).
  rewrite H; reflexivity.
Defined.

End Reporter.

(* ================================================================= *)
(** * Further properties of the helpers *)

(** ** Attached elements and their count *)

Lemma located_same (input : Input) (w : World) :
  now (located input w) = now w /\ turn (located input w) = turn w /\
  page (located input w) = page w /\ stdout (located input w) = stdout w /\
  errors (located input w) = errors w /\ journal (located input w) = journal w.
Proof.
  destruct input; repeat split.
Qed.

Lemma isElementAttached_runs rt tc input options w :
  let attached := target (locator_of input None w) in
  let budget := attach_budget tc options in
  let reply := waitForAttached rt attached budget (turn w) in
  isElementAttached rt tc input options w
  = match settled reply with
    | Returns _ =>
        (Returns true,
         answered (located input w) (waitForCall attached budget) Done
           (Z.of_N (took reply)))
    | Throws error =>
        (Returns false,
         printed (answered (located input w) (waitForCall attached budget)
                    (Failed error) (Z.of_N (took reply)))
           [("isElementAttached- " ++ describe error)%string])
    end.
Proof.
  cbv zeta. unfold isElementAttached, attach_budget.
  unfold bind at 1. rewrite getLocator_runs.
  unfold try_catch, bind, Locator_waitFor_attached, await.
  destruct (located_same input w) as (_ & Hturn & _).
  rewrite Hturn.
  destruct (settled (waitForAttached rt (target (locator_of input None w))
              (orElse (timeout_of options) (SMALL_TIMEOUT tc)) (turn w)))
    as [[]|error]; reflexivity.
Qed.

(** X1.  [isElementAttached] never throws.  It makes one request,
    [locator.waitFor] for the attached state with the budget
    [options?.timeout || SMALL_TIMEOUT]; it returns true and prints nothing
    when the request is fulfilled, and returns false and prints the reason
    under its name when the request is rejected. *)
Theorem isElementAttached_reports rt tc input options w :
  let attached := target (locator_of input None w) in
  let budget := attach_budget tc options in
  let reply := waitForAttached rt attached budget (turn w) in
  let run := isElementAttached rt tc input options w in
  elapsed w (snd run) = Z.of_N (took reply) /\
  match settled reply with
  | Returns _ =>
      fst run = Returns true /\
      stdout (snd run) = stdout w /\
      news w (snd run)
      = [{| at_ms := now w; what := waitForCall attached budget; went := Done |}]
  | Throws error =>
      fst run = Returns false /\
      stdout (snd run) = stdout w ++ [("isElementAttached- " ++ describe error)%string] /\
      news w (snd run)
      = [{| at_ms := now w; what := waitForCall attached budget;
            went := Failed error |}]
  end.
Proof.
  cbv zeta. rewrite isElementAttached_runs. cbv zeta.
  destruct (located_same input w) as (Hnow & _ & _ & Hout & _ & Hj).
  destruct (settled (waitForAttached rt (target (locator_of input None w))
              (attach_budget tc options) (turn w))) as [[]|error];
    cbn [fst snd]; unfold elapsed, printed; cbn [now stdout answered];
    rewrite ?Hnow, ?Hout; (split; [lia|]); repeat split;
    apply news_app; cbn [journal answered]; rewrite Hj, Hnow; reflexivity.
Qed.

Lemma getAllLocators_eq rt input options w :
  let base := target (locator_of input options w) in
  let reply := elements rt base (turn w) in
  let w0 := located input w in
  getAllLocators rt input options w
  = match settled reply with
    | Returns nodes =>
        (Returns (map (fun i => {| serial := minted w0 + i; target := NthOf base i |})
                      (seq 0 (length nodes))),
         {| now := now w + Z.of_N (took reply); turn := S (turn w);
            minted := minted w0 + length nodes; page := page w;
            stdout := stdout w; errors := errors w;
            journal := journal w ++ [{| at_ms := now w; what := allCall base;
                                        went := Found (length nodes) |}] |})
    | Throws error =>
        (Throws error, answered w0 (allCall base) (Failed error) (Z.of_N (took reply)))
    end.
Proof.
  cbv zeta.
  destruct input as [selector|locator];
    unfold getAllLocators, bind, getPage, Page_locator, Locator_all, bind, await;
    cbn [locator_of target turn located];
    match goal with
    | |- context [settled ?r] => destruct (settled r) as [nodes|error]
    end; reflexivity.
Qed.

Lemma getAllLocators_runs rt input options w :
  let base := target (locator_of input options w) in
  let reply := elements rt base (turn w) in
  exists w',
    stdout w' = stdout w /\ errors w' = errors w /\
    journal w'
    = journal w ++ [{| at_ms := now w; what := allCall base;
                       went := match settled reply with
                               | Returns nodes => Found (length nodes)
                               | Throws error => Failed error
                               end |}] /\
    match settled reply with
    | Returns nodes =>
        exists handles,
          getAllLocators rt input options w = (Returns handles, w') /\
          length handles = length nodes
    | Throws error => getAllLocators rt input options w = (Throws error, w')
    end.
Proof.
  cbv zeta. exists (snd (getAllLocators rt input options w)).
  rewrite getAllLocators_eq. cbv zeta.
  destruct (located_same input w) as (Hnow & _ & _ & Hout & Herr & Hj).
  destruct (settled (elements rt (target (locator_of input options w)) (turn w)))
    as [nodes|error]; cbn [snd]; repeat split.
  - eexists. split; [reflexivity|]. rewrite length_map, length_seq. reflexivity.
  - cbn [stdout answered]. exact Hout.
  - cbn [errors answered]. exact Herr.
  - cbn [journal answered]. rewrite Hj, Hnow. reflexivity.
Qed.

(** X2.  [getLocatorCount] never throws.  It first waits for the element to
    be attached, with the budget [options?.timeout || INSTANT_TIMEOUT] (or
    [SMALL_TIMEOUT] should that be 0).  When the wait is rejected it returns
    0 without asking for the matches.  When the wait is fulfilled it returns
    the number of matching nodes, or 0, with the reason printed under its
    name, when the matches cannot be had. *)
Theorem getLocatorCount_counts rt tc input options w :
  let counted := target (locator_of input None w) in
  let budget := orElse (Some (count_budget tc options)) (SMALL_TIMEOUT tc) in
  let waited := waitForAttached rt counted budget (turn w) in
  let matched := elements rt counted (S (turn w)) in
  let run := getLocatorCount rt tc input options w in
  (exists n, fst run = Returns n) /\
  (exists a rest,
     news w (snd run)
     = {| at_ms := now w; what := waitForCall counted budget; went := a |} :: rest) /\
  match settled waited with
  | Throws error =>
      fst run = Returns 0%nat /\
      existsb asks_all (news w (snd run)) = false /\
      stdout (snd run) = stdout w ++ [("isElementAttached- " ++ describe error)%string]
  | Returns _ =>
      match settled matched with
      | Returns nodes =>
          fst run = Returns (length nodes) /\ stdout (snd run) = stdout w
      | Throws error =>
          fst run = Returns 0%nat /\
          stdout (snd run) = stdout w ++ [("getLocatorCount- " ++ describe error)%string]
      end
  end.
Proof.
  cbv zeta.
  assert (Hrun : getLocatorCount rt tc input options w
          = (let attached := isElementAttached rt tc input
                               (Some {| timeout := Some (count_budget tc options) |}) w in
             match fst attached with
             | Returns true =>
                 match getAllLocators rt input None (snd attached) with
                 | (Returns locators, w') => (Returns (length locators), w')
                 | (Throws error, w') =>
                     (Returns 0%nat,
                      printed w' [("getLocatorCount- " ++ describe error)%string])
                 end
             | Returns false => (Returns 0%nat, snd attached)
             | Throws error =>
                 (Returns 0%nat,
                  printed (snd attached)
                    [("getLocatorCount- " ++ describe error)%string])
             end)).
  { unfold getLocatorCount, count_budget. unfold bind at 1. unfold try_catch.
    unfold bind at 1. cbv zeta.
    destruct (isElementAttached rt tc input
                (Some {| timeout := Some (orElse (timeout_of options)
                                            (INSTANT_TIMEOUT tc)) |}) w)
      as [[[|]|error] w1]; cbn [fst snd]; try reflexivity.
    unfold bind at 1.
    destruct (getAllLocators rt input None w1) as [[locators|error] w2];
      reflexivity. }
  rewrite Hrun. clear Hrun. cbv zeta.
  rewrite isElementAttached_runs. cbv zeta.
  change (attach_budget tc (Some {| timeout := Some (count_budget tc options) |}))
    with (orElse (Some (count_budget tc options)) (SMALL_TIMEOUT tc)).
  destruct (located_same input w) as (Hnow & Hturn & Hpage & Hout & _ & Hj).
  destruct (settled (waitForAttached rt (target (locator_of input None w))
              (orElse (Some (count_budget tc options)) (SMALL_TIMEOUT tc)) (turn w)))
    as [[]|error]; cbn [fst snd].
  - match goal with
    | |- context [getAllLocators rt input None ?w1] =>
        destruct (getAllLocators_runs rt input None w1)
          as (w2 & Hout2 & _ & Hj2 & Hall);
        assert (Hbase : target (locator_of input None w1)
                        = target (locator_of input None w))
          by (destruct input; cbn [locator_of target answered page];
              rewrite ?Hpage; reflexivity);
        assert (Hturn1 : turn w1 = S (turn w))
          by (cbn [turn answered]; rewrite Hturn; reflexivity);
        cbv zeta in Hj2, Hall; rewrite Hbase, Hturn1 in Hj2, Hall;
        cbn [journal answered stdout now] in Hj2, Hout2
    end.
    destruct (settled (elements rt (target (locator_of input None w)) (S (turn w))))
      as [nodes|error].
    + destruct Hall as (handles & -> & Hlen). cbn [fst snd].
      split; [eauto|]. split; [|split; congruence].
      do 2 eexists. apply news_app. rewrite Hj2, Hj, Hnow, <- app_assoc.
      reflexivity.
    + rewrite Hall. cbn [fst snd].
      split; [eauto|]. split; [|split; [reflexivity|]].
      * do 2 eexists. apply news_app. unfold printed. cbn [journal].
        rewrite Hj2, Hj, Hnow, <- app_assoc. reflexivity.
      * unfold printed. cbn [stdout]. congruence.
  - split; [eauto|]. split; [|split; [reflexivity|split]].
    + do 2 eexists. apply news_app. unfold printed. cbn [journal answered].
      rewrite Hj, Hnow. reflexivity.
    + erewrite news_app;
        [|unfold printed; cbn [journal answered]; rewrite Hj; reflexivity].
      reflexivity.
    + unfold printed. cbn [stdout answered]. rewrite Hout. reflexivity.
Qed.

(** ** How long a poller takes, and what a larger budget changes *)

Section MoreTrailFacts.

Variables (rt : Runtime) (call : Call) (reply : nat -> Reply bool).
Variables (startTime : Z).

(** A loop that is left by [return] or by an exception ends with the sample
    that was begun last, within the budget. *)
Lemma Trail_ends_with_sample budget fuel k t entries left t' c :
  (forall i, Z.of_N (took (reply i)) <= c) ->
  Trail rt call reply startTime budget fuel k t entries left t' ->
  left <> Returns Expired -> left <> Returns Starved ->
  t' - startTime < budget + c.
Proof.
  intros Hc. induction 1; intros Hexp Hstarved; try congruence.
  - specialize (Hc k). lia.
  - specialize (Hc k). lia.
  - auto.
Qed.

(** However the loop is left, it is left before the budget, one sample and
    one timer have gone by. *)
Lemma Trail_deadline budget fuel k t entries left t' c l :
  (forall i, Z.of_N (took (reply i)) <= c) ->
  (forall i, Z.of_N (timerLag rt i) <= l) ->
  Trail rt call reply startTime budget fuel k t entries left t' ->
  t' = t \/ t' - startTime < budget + c + 100 + l.
Proof.
  intros Hc Hl. induction 1; auto.
  - right. specialize (Hc k). specialize (Hl O). lia.
  - right. specialize (Hc k). specialize (Hl O). lia.
  - right. specialize (Hc k). specialize (Hl (S k)).
    destruct IHTrail as [->|]; lia.
Qed.

(** The loop is a function of where it starts. *)
Lemma Trail_functional budget fuel k t entries left t' entries2 left2 t2 :
  Trail rt call reply startTime budget fuel k t entries left t' ->
  Trail rt call reply startTime budget fuel k t entries2 left2 t2 ->
  entries = entries2 /\ left = left2 /\ t' = t2.
Proof.
  intros H. revert entries2 left2 t2.
  induction H; intros entries2 left2 t2 H2; inversion H2; subst;
    try (repeat split; reflexivity); try lia; try congruence.
  - rewrite H0 in *. match goal with E : Throws _ = Throws _ |- _ =>
      injection E as <- end. repeat split; reflexivity.
  - destruct (IHTrail _ _ _ ltac:(eassumption)) as (-> & -> & ->).
    repeat split; reflexivity.
Qed.

(** A loop that was left by [return] or by an exception is left in the same
    way with a larger budget and more fuel. *)
Lemma Trail_widen budget fuel k t entries left t' budget2 fuel2 :
  Trail rt call reply startTime budget fuel k t entries left t' ->
  left <> Returns Expired -> left <> Returns Starved ->
  budget <= budget2 -> (fuel <= fuel2)%nat ->
  Trail rt call reply startTime budget2 fuel2 k t entries left t'.
Proof.
  intros H. revert fuel2.
  induction H; intros fuel2 Hexp Hstarved Hb Hf; try congruence;
    (destruct fuel2 as [|fuel2]; [lia|]).
  - apply Trail_hit; [lia | assumption].
  - apply Trail_thrown; [lia | assumption].
  - apply Trail_miss; [lia | assumption |]. apply IHTrail; auto. lia.
Qed.

End MoreTrailFacts.

Lemma Trail_reply_ext rt call reply reply2 startTime budget fuel k t entries left t' :
  (forall i, reply i = reply2 i) ->
  Trail rt call reply startTime budget fuel k t entries left t' ->
  Trail rt call reply2 startTime budget fuel k t entries left t'.
Proof.
  intros Hsame. induction 1.
  - constructor.
  - now constructor.
  - rewrite Hsame. apply Trail_hit; [assumption | rewrite <- Hsame; assumption].
  - rewrite Hsame. apply Trail_thrown; [assumption | rewrite <- Hsame; assumption].
  - rewrite !Hsame. apply Trail_miss;
      [assumption | rewrite <- Hsame; assumption |].
    rewrite <- !Hsame. assumption.
Qed.

Lemma rounds_mono (budget budget2 : Z) :
  budget <= budget2 -> (rounds budget <= rounds budget2)%nat.
Proof.
  intros H. unfold rounds. do 2 apply le_n_S.
  pose proof (Z.div_le_mono budget budget2 100 ltac:(lia) H) as Hdiv.
  lia.
Qed.

Lemma Trail_spent rt call reply startTime budget fuel k t entries left t' :
  Trail rt call reply startTime budget (S fuel) k t entries left t' ->
  budget <= t - startTime ->
  entries = [] /\ left = Returns Expired /\ t' = t.
Proof.
  inversion 1; subst; intros Hspent; try lia. repeat split.
Qed.

Lemma poller_in_time rt call reply budget fuel k input w entries left t' name
    (poller : Run bool) c l :
  (forall i, Z.of_N (took (reply i)) <= c) ->
  (forall i, Z.of_N (timerLag rt i) <= l) ->
  Trail rt call reply (now w) budget (S fuel) k (now w) entries left t' ->
  left <> Returns Starved ->
  poller w = (Returns (verdict left),
              printed (polled (located input w) entries t') (complaint name left)) ->
  in_time budget c l w (poller w).
Proof.
  intros Hc Hl HT Hfed Hrun. unfold in_time. rewrite Hrun. cbn [fst snd].
  unfold elapsed, printed, polled. cbn [now]. repeat apply conj.
  - destruct (Trail_deadline _ _ _ _ _ _ _ _ _ _ _ c l Hc Hl HT) as [->|H];
      [left|right]; lia.
  - intros Htrue.
    pose proof (Trail_ends_with_sample _ _ _ _ _ _ _ _ _ _ _ c Hc HT) as H.
    destruct left as [[[|]| |]|error]; try discriminate.
    assert (t' - now w < budget + c) by (apply H; discriminate). lia.
  - intros Hspent. apply Trail_spent in HT; [|lia].
    destruct HT as (_ & -> & ->). split; [lia | reflexivity].
Qed.

(** X3.  Neither poller outlasts its budget by more than one round: with
    samples answered within [c] ms and timers at most [l] ms late,
    [isElementVisible] and [isElementHidden] return in less than the budget
    plus [c + 100 + l] ms; in less than the budget plus [c] ms when they
    return true; and at once, with false, when the budget is not positive. *)
Theorem pollers_return_in_time rt tc input options w c l :
  (forall t o i, Z.of_N (took (isVisible rt t o i)) <= c) ->
  (forall t o i, Z.of_N (took (isHidden rt t o i)) <= c) ->
  (forall i, Z.of_N (timerLag rt i) <= l) ->
  in_time (the_budget tc options) c l w (isElementVisible rt tc input options w) /\
  in_time (the_budget tc options) c l w (isElementHidden rt tc input options w).
Proof.
  intros Hseen Hgone Hl. split.
  - destruct (isElementVisible_runs rt tc input options w)
      as (entries & left & t' & HT & Hfed & Hrun).
    cbv zeta in HT. unfold rounds in HT.
    eapply poller_in_time;
      [intros i; apply Hseen | exact Hl | exact HT | exact Hfed | exact Hrun].
  - destruct (isElementHidden_runs rt tc input options w)
      as (entries & left & t' & HT & Hfed & Hrun).
    cbv zeta in HT. unfold rounds in HT.
    eapply poller_in_time;
      [intros i; apply Hgone | exact Hl | exact HT | exact Hfed | exact Hrun].
Qed.

(** A witness for X3: the quiet browser answers at once and its timers are
    exact; with a budget of 300 ms the poll is over in less than 400 ms. *)
Lemma pollers_return_in_time_witness :
  elapsed Sample.dawn
    (snd (isElementVisible Sample.quiet Sample.budgets (Selector "#cart")
            (Sample.within 300) Sample.dawn)) < 400.
Proof.
  destruct (pollers_return_in_time Sample.quiet Sample.budgets (Selector "#cart")
              (Sample.within 300) Sample.dawn 0 0) as [(H & _) _].
  - intros t o i. simpl. lia.
  - intros t o i. simpl. lia.
  - intros i. simpl. lia.
  - change (the_budget Sample.budgets (Sample.within 300)) with 300 in H. lia.
Defined.

(** X4.  [isElementHidden] keeps the schedule of its sibling.  For every
    positive budget it samples [isHidden] at once, returns true as soon as a
    sample is true and in no other case; while every sample is false it
    sleeps 100 ms after each, takes no sample once the budget is used up,
    and then returns false: at least one sample, at most one per started
    100 ms of budget, and the budget is no more than [(100 + c + l) * n] for
    [n] samples answered within [c] ms and timers at most [l] ms late. *)
Theorem hidden_poll_schedule rt tc input options w :
  let budget := the_budget tc options in
  let sampled := target (locator_of input None w) in
  let run := isElementHidden rt tc input options w in
  let entries := news w (snd run) in
  let n := Z.of_nat (length (samples entries)) in
  0 < budget ->
  (exists a rest,
     entries = {| at_ms := now w; what := isHiddenCall sampled; went := a |} :: rest) /\
  (forall x, In x entries -> went x = Said true ->
     fst run = Returns true /\ exists earlier, entries = earlier ++ [x]) /\
  (fst run = Returns true ->
     exists earlier x, entries = earlier ++ [x] /\ went x = Said true) /\
  ((forall i, settled (isHidden rt sampled options i) = Returns false) ->
     fst run = Returns false /\
     budget <= elapsed w (snd run) /\
     paced entries = true /\
     Forall (fun x => is_sample x = true -> at_ms x - now w < budget) entries /\
     0 < n /\ 100 * (n - 1) < budget /\
     forall c l,
       (forall i, Z.of_N (took (isHidden rt sampled options i)) <= c) ->
       (forall i, Z.of_N (timerLag rt i) <= l) ->
       budget <= (100 + c + l) * n /\
       (budget = 300 -> c + l < 50 -> 3 <= n)).
Proof.
  cbv zeta. intros Hbudget.
  destruct (isElementHidden_runs rt tc input options w)
    as (entries & left & t' & HT & Hfed & Hrun).
  cbv zeta in HT. rewrite Hrun. cbn [fst snd]. rewrite news_polled.
  repeat apply conj.
  - eapply Trail_head; [exact HT|]. lia.
  - intros x Hin Hx. eapply Trail_true_in in Hin; eauto.
    destruct Hin as (-> & earlier & ->). eauto.
  - intros Hr.
    destruct left as [[[|]| |]|error]; try discriminate.
    apply Trail_returned_inv in HT. destruct HT as (_ & earlier & t0 & ->).
    eauto.
  - intros Hno.
    pose proof HT as Hleft. apply Trail_never_true in Hleft; [|exact Hno].
    destruct Hleft as [->| ->]; [|contradiction].
    pose proof HT as Hinv. apply Trail_expired_inv in Hinv; [|reflexivity].
    cbv zeta in Hinv.
    destruct Hinv as (Hup & Hpaced & _ & Hlow & Hzero & Hlast).
    unfold elapsed, printed, polled. cbn [now verdict complaint].
    assert (Hn : 0 < Z.of_nat (length (samples entries))).
    { destruct (Z.eq_dec (Z.of_nat (length (samples entries))) 0) as [Hz|Hz];
        [specialize (Hzero Hz)|]; lia. }
    repeat apply conj; try assumption; try reflexivity.
    + apply Forall_forall. intros x Hin Hx.
      eapply Trail_in_time in Hin; eauto; lia.
    + specialize (Hlast Hn). lia.
    + intros c l Hc Hl.
      eapply Trail_expired_upper in HT; [|reflexivity|exact Hc|exact Hl].
      split; [lia|]. intros H300 Hcl. nia.
Qed.

(** A witness for X4: nothing is hidden for the quiet browser; a budget of
    300 ms gives three samples or more. *)
Lemma hidden_poll_schedule_witness :
  3 <= Z.of_nat (length (samples (news Sample.dawn
         (snd (isElementHidden Sample.quiet Sample.budgets (Selector "#spinner")
                 (Sample.within 300) Sample.dawn))))).
Proof.
  assert (Hbudget : 0 < the_budget Sample.budgets (Sample.within 300))
    by reflexivity.
  pose proof (hidden_poll_schedule Sample.quiet Sample.budgets (Selector "#spinner")
                (Sample.within 300) Sample.dawn Hbudget) as (_ & _ & _ & H).
  destruct H as (_ & _ & _ & _ & _ & _ & H).
  - intros i. reflexivity.
  - destruct (H 0 0) as [_ H3].
    + intros i. simpl. lia.
    + intros i. simpl. lia.
    + apply H3; [reflexivity | lia].
Defined.

Lemma verdict_true left : verdict left = true -> left = Returns (Returned true).
Proof.
  destruct left as [[[|]| |]|error]; simpl; congruence.
Qed.

(** X5.  A larger budget never loses an element: when [isVisible] does not
    look at its options (Playwright ignores them) and [isElementVisible]
    returns true under some options, then under any options with a budget
    at least as large it does exactly the same: same answer, same requests,
    same time. *)
Theorem larger_budget_keeps_true rt tc input options options2 w :
  (forall t o o' i, isVisible rt t o i = isVisible rt t o' i) ->
  the_budget tc options <= the_budget tc options2 ->
  fst (isElementVisible rt tc input options w) = Returns true ->
  isElementVisible rt tc input options2 w = isElementVisible rt tc input options w.
Proof.
  intros Hsame Hle Htrue.
  destruct (isElementVisible_runs rt tc input options w)
    as (entries & left & t' & HT & _ & Hrun).
  destruct (isElementVisible_runs rt tc input options2 w)
    as (entries2 & left2 & t2 & HT2 & _ & Hrun2).
  cbv zeta in HT, HT2. rewrite Hrun in Htrue. cbn [fst] in Htrue.
  injection Htrue as Htrue. apply verdict_true in Htrue. subst left.
  apply (Trail_widen _ _ _ _ _ _ _ _ _ _ _ (the_budget tc options2)
           (rounds (the_budget tc options2))) in HT;
    [| discriminate | discriminate | exact Hle | apply rounds_mono; exact Hle].
  apply (Trail_reply_ext _ _ _
           (isVisible rt (target (locator_of input None w)) options2)) in HT;
    [| intros i; apply Hsame].
  destruct (Trail_functional _ _ _ _ _ _ _ _ _ _ _ _ _ _ HT2 HT) as (-> & -> & ->).
  rewrite Hrun, Hrun2. reflexivity.
Qed.

(** A witness for X5: the element shows at the third request; 300 ms are
    enough, and 5000 ms change nothing. *)
Lemma larger_budget_keeps_true_witness :
  isElementVisible Sample.late Sample.budgets (Selector "#cart")
    (Sample.within 5000) Sample.dawn
  = isElementVisible Sample.late Sample.budgets (Selector "#cart")
      (Sample.within 300) Sample.dawn.
Proof.
  apply larger_budget_keeps_true.
  - intros t o o' i. reflexivity.
  - vm_compute. discriminate.
  - reflexivity.
Defined.

(** ** The checked state of an element that is visible *)

Lemma isElementChecked_seen rt tc input options w :
  fst (isElementVisible rt tc input options w) = Returns true ->
  let w1 := snd (isElementVisible rt tc input options w) in
  let asked := target (locator_of input None w) in
  let reply := isChecked rt asked options (turn w1) in
  isElementChecked rt tc input options w
  = match settled reply with
    | Returns b =>
        (Returns b,
         answered (located input w1) (isCheckedCall asked) (Said b)
           (Z.of_N (took reply)))
    | Throws error =>
        (Returns false,
         printed (answered (located input w1) (isCheckedCall asked) (Failed error)
                    (Z.of_N (took reply)))
           [("isElementChecked- " ++ describe error)%string])
    end.
Proof.
  intros Hseen. cbv zeta.
  assert (Hpage : page (snd (isElementVisible rt tc input options w)) = page w).
  { destruct (isElementVisible_runs rt tc input options w)
      as (entries & left & t' & _ & _ & ->).
    cbn [snd]. destruct input; reflexivity. }
  unfold isElementChecked. unfold bind at 1. unfold try_catch. unfold bind at 1.
  destruct (isElementVisible rt tc input options w) as [seen w1].
  cbn [fst snd] in *. subst seen.
  unfold bind at 1. rewrite getLocator_runs.
  unfold bind at 1. unfold Locator_isChecked, await.
  destruct (located_same input w1) as (_ & Hturn & _).
  assert (Htarget : target (locator_of input None w1) = target (locator_of input None w))
    by (destruct input; cbn [locator_of target]; rewrite ?Hpage; reflexivity).
  rewrite Htarget, Hturn.
  destruct (settled (isChecked rt (target (locator_of input None w)) options (turn w1)))
    as [b|error]; reflexivity.
Qed.

(** X6.  When its visibility poll ends with true, [isElementChecked] asks
    for the checked state once and returns the answer; when that request is
    rejected it returns false and prints the reason under its name.  It
    never throws. *)
Theorem seen_is_asked_whether_checked rt tc input options w :
  fst (isElementVisible rt tc input options w) = Returns true ->
  let w1 := snd (isElementVisible rt tc input options w) in
  let asked := target (locator_of input None w) in
  let reply := isChecked rt asked options (turn w1) in
  let run := isElementChecked rt tc input options w in
  news w1 (snd run)
  = [{| at_ms := now w1; what := isCheckedCall asked;
        went := match settled reply with
                | Returns b => Said b
                | Throws error => Failed error
                end |}] /\
  match settled reply with
  | Returns b => fst run = Returns b /\ stdout (snd run) = stdout w1
  | Throws error =>
      fst run = Returns false /\
      stdout (snd run) = stdout w1 ++ [("isElementChecked- " ++ describe error)%string]
  end.
Proof.
  intros Hseen. cbv zeta. rewrite (isElementChecked_seen _ _ _ _ _ Hseen). cbv zeta.
  destruct (located_same input (snd (isElementVisible rt tc input options w)))
    as (Hnow & _ & _ & Hout & _ & Hj).
  destruct (settled (isChecked rt (target (locator_of input None w)) options
              (turn (snd (isElementVisible rt tc input options w)))))
    as [b|error]; cbn [fst snd]; unfold printed; cbn [stdout journal answered];
    (split; [apply news_app; cbn [journal answered]; rewrite Hj, Hnow; reflexivity|]);
    (split; [reflexivity|]); rewrite Hout; reflexivity.
Qed.

(** A witness for X6: a checkbox that is visible and checked. *)
Lemma seen_is_asked_whether_checked_witness :
  fst (isElementChecked More.ticked_seen Sample.budgets (Selector "#agree")
         (Sample.within 300) Sample.dawn) = Returns true.
Proof.
  exact (proj1 (proj2 (seen_is_asked_whether_checked More.ticked_seen Sample.budgets
                         (Selector "#agree") (Sample.within 300) Sample.dawn
                         eq_refl))).
Defined.

(** ** Expectations, hard and soft *)

Lemma expectElementToBeVisible_runs rt input options w :
  let expected := target (locator_of input None w) in
  let reply := toBeVisible rt expected (expect_timeout_of options) (turn w) in
  expectElementToBeVisible rt input options w
  = match settled reply with
    | Returns _ =>
        (Returns tt,
         answered (located input w) (toBeVisibleCall expected) Done
           (Z.of_N (took reply)))
    | Throws error =>
        let w' := answered (located input w) (toBeVisibleCall expected)
                    (Failed error) (Z.of_N (took reply)) in
        if asks_soft options then (Returns tt, blamed w' error)
        else (Throws error, w')
    end.
Proof.
  cbv zeta. unfold expectElementToBeVisible, getLocatorAndAssert, asks_soft.
  unfold bind at 1. unfold bind at 1. rewrite getLocator_runs.
  unfold ret at 1. cbn [fst snd].
  unfold toBeVisible_, try_catch, await.
  destruct (located_same input w) as (_ & Hturn & _). rewrite Hturn.
  destruct (settled (toBeVisible rt (target (locator_of input None w))
              (expect_timeout_of options) (turn w))) as [[]|error]; [reflexivity|].
  unfold fails. destruct (softly (getExpectWithSoftOption options)); reflexivity.
Qed.

(** What one expectation does to the world. *)
Lemma expectElementToBeVisible_step rt input options w :
  let run := expectElementToBeVisible rt input options w in
  exists x,
    journal (snd run) = journal w ++ [x] /\
    match fst run with
    | Returns _ =>
        if asks_soft options
        then errors (snd run) = errors w ++ blames [x]
        else errors (snd run) = errors w /\ blames [x] = []
    | Throws error =>
        asks_soft options = false /\ errors (snd run) = errors w /\
        went x = Failed error
    end.
Proof.
  cbv zeta. rewrite expectElementToBeVisible_runs. cbv zeta.
  destruct (located_same input w) as (Hnow & _ & _ & _ & Herr & Hj).
  destruct (settled (toBeVisible rt (target (locator_of input None w))
              (expect_timeout_of options) (turn w))) as [[]|error].
  - eexists. cbn [fst snd journal errors answered]. rewrite Hj, Herr.
    split; [reflexivity|].
    destruct (asks_soft options); cbn; rewrite ?app_nil_r; auto.
  - destruct (asks_soft options); eexists;
      cbn [fst snd journal errors answered blamed]; rewrite Hj, Herr;
      (split; [reflexivity|]).
    + reflexivity.
    + repeat split.
Qed.

Lemma blames_app (entries more : list Entry) :
  blames (entries ++ more) = blames entries ++ blames more.
Proof.
  unfold blames. apply flat_map_app.
Qed.

Lemma expectAllToBeVisible_cons rt input inputs options w :
  expectAllToBeVisible rt (input :: inputs) options w
  = match expectElementToBeVisible rt input options w with
    | (Returns _, w') => expectAllToBeVisible rt inputs options w'
    | (Throws error, w') => (Throws error, w')
    end.
Proof.
  reflexivity.
Qed.

(** X7.  A batch of soft expectations never throws and skips none of its
    checks: it makes one request per input, and [testInfo.errors] grows by
    exactly the reasons of the requests that failed, in the order of the
    checks; what was recorded before is kept. *)
Theorem soft_batch_records_every_failure rt inputs options w :
  asks_soft options = true ->
  let run := expectAllToBeVisible rt inputs options w in
  fst run = Returns tt /\
  length (news w (snd run)) = length inputs /\
  errors (snd run) = errors w ++ blames (news w (snd run)).
Proof.
  intros Hsoft. cbv zeta.
  enough (H : exists entries,
             journal (snd (expectAllToBeVisible rt inputs options w))
             = journal w ++ entries /\
             fst (expectAllToBeVisible rt inputs options w) = Returns tt /\
             length entries = length inputs /\
             errors (snd (expectAllToBeVisible rt inputs options w))
             = errors w ++ blames entries).
  { destruct H as (entries & Hj & Hret & Hlen & Herr).
    rewrite (news_app _ _ _ Hj). auto. }
  revert w. induction inputs as [|input inputs IH]; intros w.
  - exists []. cbn. rewrite !app_nil_r. auto.
  - rewrite expectAllToBeVisible_cons.
    destruct (expectElementToBeVisible_step rt input options w) as (x & Hj & Hstep).
    cbv zeta in Hj, Hstep.
    destruct (expectElementToBeVisible rt input options w) as [[[]|error] w1];
      cbn [fst snd] in Hj, Hstep.
    + rewrite Hsoft in Hstep.
      destruct (IH w1) as (entries & Hj' & Hret & Hlen & Herr).
      exists (x :: entries). rewrite Hj', Hj, <- app_assoc.
      split; [reflexivity|]. split; [exact Hret|]. split; [simpl; lia|].
      rewrite Herr, Hstep, <- app_assoc.
      change (x :: entries) with ([x] ++ entries). rewrite blames_app.
      reflexivity.
    + destruct Hstep as (Hhard & _). congruence.
Qed.

(** A witness for X7: four soft checks of which the last two fail. *)
Lemma soft_batch_records_every_failure_witness :
  let run := expectAllToBeVisible More.fades
               [Selector "#a"; Selector "#b"; Selector "#c"; Selector "#d"]
               More.softly_please Sample.dawn in
  fst run = Returns tt /\ length (errors (snd run)) = 2%nat.
Proof.
  destruct (soft_batch_records_every_failure More.fades
              [Selector "#a"; Selector "#b"; Selector "#c"; Selector "#d"]
              More.softly_please Sample.dawn eq_refl) as (Hret & _ & Herr).
  cbv zeta. split; [exact Hret|]. rewrite Herr. reflexivity.
Defined.

(** X8.  A batch of hard expectations (no [soft], or [soft: false]) never
    writes to [testInfo.errors].  It returns only when no request failed,
    having made one per input; otherwise it throws the reason of the first
    request that failed, which is the last request it makes. *)
Theorem hard_batch_stops_at_first_failure rt inputs options w :
  asks_soft options = false ->
  let run := expectAllToBeVisible rt inputs options w in
  errors (snd run) = errors w /\
  match fst run with
  | Returns _ =>
      length (news w (snd run)) = length inputs /\ blames (news w (snd run)) = []
  | Throws error =>
      exists earlier x,
        news w (snd run) = earlier ++ [x] /\ went x = Failed error /\
        blames earlier = [] /\ (length earlier < length inputs)%nat
  end.
Proof.
  intros Hhard. cbv zeta.
  enough (H : exists entries,
             journal (snd (expectAllToBeVisible rt inputs options w))
             = journal w ++ entries /\
             errors (snd (expectAllToBeVisible rt inputs options w)) = errors w /\
             match fst (expectAllToBeVisible rt inputs options w) with
             | Returns _ => length entries = length inputs /\ blames entries = []
             | Throws error =>
                 exists earlier x,
                   entries = earlier ++ [x] /\ went x = Failed error /\
                   blames earlier = [] /\ (length earlier < length inputs)%nat
             end).
  { destruct H as (entries & Hj & Herr & H).
    rewrite (news_app _ _ _ Hj). auto. }
  revert w. induction inputs as [|input inputs IH]; intros w.
  - exists []. cbn. rewrite app_nil_r. auto.
  - rewrite expectAllToBeVisible_cons.
    destruct (expectElementToBeVisible_step rt input options w) as (x & Hj & Hstep).
    cbv zeta in Hj, Hstep. rewrite Hhard in Hstep.
    destruct (expectElementToBeVisible rt input options w) as [[[]|error] w1];
      cbn [fst snd] in Hj, Hstep.
    + destruct Hstep as (Herr1 & Hclean).
      destruct (IH w1) as (entries & Hj' & Herr & H).
      exists (x :: entries). rewrite Hj', Hj, <- app_assoc, Herr, Herr1.
      split; [reflexivity|]. split; [reflexivity|].
      destruct (fst (expectAllToBeVisible rt inputs options w1)) as [[]|error].
      * destruct H as (Hlen & Hnone). split; [simpl; lia|].
        change (x :: entries) with ([x] ++ entries).
        rewrite blames_app, Hclean, Hnone. reflexivity.
      * destruct H as (earlier & y & -> & Hy & Hnone & Hlen).
        exists (x :: earlier), y. split; [reflexivity|]. split; [exact Hy|].
        split; [|simpl; lia].
        change (x :: earlier) with ([x] ++ earlier).
        rewrite blames_app, Hclean, Hnone. reflexivity.
    + destruct Hstep as (_ & Herr1 & Hx). cbn [fst snd].
      exists [x]. split; [exact Hj|]. split; [exact Herr1|].
      exists [], x. repeat split; auto. simpl. lia.
Qed.

(** A witness for X8: of four hard checks the third fails; nothing is
    written to [testInfo.errors]. *)
Lemma hard_batch_stops_at_first_failure_witness :
  errors (snd (expectAllToBeVisible More.fades
                 [Selector "#a"; Selector "#b"; Selector "#c"; Selector "#d"]
                 None Sample.dawn)) = [].
Proof.
  exact (proj1 (hard_batch_stops_at_first_failure More.fades
                  [Selector "#a"; Selector "#b"; Selector "#c"; Selector "#d"]
                  None Sample.dawn eq_refl)).
Defined.

(** ** The reporter over a whole run *)

Section ReporterRun.

Import CustomLogger Runner.

Lemma notify_appends lf event out :
  exists added,
    console (notify lf event out) = console out ++ added /\
    info_log (notify lf event out) = info_log out ++ added /\
    length added = (if noted event then 1 else 0)%nat.
Proof.
  destruct event as [t test|t test result|t e]; cbn [notify noted].
  - eexists. repeat split.
  - unfold onTestEnd. destruct (status result).
    + eexists. repeat split.
    + destruct (result_error result); exists []; rewrite !app_nil_r; repeat split.
    + exists []. rewrite !app_nil_r. repeat split.
    + eexists. repeat split.
    + exists []. rewrite !app_nil_r. repeat split.
  - eexists. repeat split.
Qed.

(** X9.  Whatever the runner reports, in whatever order, the reporter only
    appends, it writes the same lines to the console and to the log file,
    and it writes one line for every test that begins, for every test that
    ends passed or skipped and for every error: a test that ends failed,
    timed out or interrupted leaves no line of its own. *)
Theorem reporter_appends_in_step lf events out :
  exists added,
    console (report lf events out) = console out ++ added /\
    info_log (report lf events out) = info_log out ++ added /\
    length added = length (filter noted events).
Proof.
  revert out. induction events as [|event events IH]; intros out.
  - exists []. rewrite !app_nil_r. repeat split.
  - cbn [report fold_left].
    destruct (notify_appends lf event out) as (first & Hc & Hf & Hlen).
    destruct (IH (notify lf event out)) as (rest & Hc' & Hf' & Hlen').
    fold (report lf events (notify lf event out)).
    exists (first ++ rest). rewrite Hc', Hf', Hc, Hf, <- !app_assoc.
    repeat split. rewrite length_app, Hlen, Hlen'. cbn [filter].
    destruct (noted event); reflexivity.
Qed.

End ReporterRun.

(* ================================================================= *)
(** * Navigation, test ids and values *)

Section WiderFacts.

Import Wider.
Local Open Scope act_scope.

Lemma waitForPageLoadState_runs br options s :
  let state := settles_on (waitUntil_of options) in
  let reply := loadStateReached br (page (world s)) state (turn (world s)) in
  waitForPageLoadState br options s
  = (match settled reply with
     | Returns _ => Returns tt
     | Throws error => Throws error
     end,
     asked s (loadStateRequest (page (world s)) state) (unit_answer reply)
       (Z.of_N (took reply))).
Proof.
  destruct s as [w a l]. cbv zeta. unfold waitForPageLoadState.
  assert (Hstate : match waitUntil_of options with
                   | Some u => match load_state_of u with
                               | Some state => state
                               | None => LOADSTATE
                               end
                   | None => LOADSTATE
                   end = settles_on (waitUntil_of options))
    by (destruct (waitUntil_of options) as [[]|]; reflexivity).
  rewrite Hstate.
  unfold Page_waitForLoadState, and_then, lift, getPage, ask, asked, unit_answer.
  cbn [world testIdAttribute ledger].
  destruct (settled (loadStateReached br (page w) (settles_on (waitUntil_of options))
              (turn w))) as [[]|error]; reflexivity.
Qed.

(** X10.  [getURL] never throws.  It waits for one load state: 'load' when
    called without options, otherwise the [waitUntil] of the options, with
    'domcontentloaded' in place of 'commit' or of none.  Then it returns the
    URL of the page; when the wait is rejected it returns the empty string
    and prints the reason under its name. *)
Theorem getURL_never_throws br options s :
  let state :=
    match options with
    | Some o => settles_on (waitUntil o)
    | None => load
    end in
  let pg := page (world s) in
  let reply := loadStateReached br pg state (turn (world s)) in
  let run := getURL br options s in
  ledger (snd run)
  = ledger s ++ [{| noted_at := now (world s); request := loadStateRequest pg state;
                    result := unit_answer reply |}] /\
  match settled reply with
  | Returns _ =>
      fst run = Returns (url br pg (S (turn (world s)))) /\
      stdout (world (snd run)) = stdout (world s)
  | Throws error =>
      fst run = Returns EmptyString /\
      stdout (world (snd run))
      = stdout (world s) ++ [("getURL- " ++ describe error)%string]
  end.
Proof.
  cbv zeta.
  assert (Hrun : getURL br options s
          = let o := match options with
                     | Some o => Some o
                     | None => Some {| waitUntil := Some until_load;
                                       navigation_timeout := None |}
                     end in
            match waitForPageLoadState br o s with
            | (Returns _, s') => Page_url br s'
            | (Throws error, s') =>
                (lift (console_log ("getURL- " ++ describe error)%string) ;;
                 done EmptyString) s'
            end).
  { unfold getURL, attempt, and_then.
    destruct (waitForPageLoadState br _ s) as [[[]|error] s']; reflexivity. }
  rewrite Hrun. clear Hrun. cbv zeta. rewrite waitForPageLoadState_runs. cbv zeta.
  assert (Hstate : settles_on (waitUntil_of
                      match options with
                      | Some o => Some o
                      | None => Some {| waitUntil := Some until_load;
                                        navigation_timeout := None |}
                      end)
                   = match options with
                     | Some o => settles_on (waitUntil o)
                     | None => load
                     end) by (destruct options; reflexivity).
  rewrite Hstate.
  destruct s as [w a l]. cbn [world ledger].
  unfold unit_answer.
  destruct (settled (loadStateReached br (page w)
              match options with
              | Some o => settles_on (waitUntil o)
              | None => load
              end (turn w))) as [[]|error];
    repeat split.
Qed.

Lemma navigate_then_wait_eq br options s (what : Page -> Request)
    (reply : Page -> nat -> Reply unit) :
  let w := world s in
  let r1 := reply (page w) (turn w) in
  let r2 := frameNavigated br (page w) (S (turn w)) in
  let d1 := Z.of_N (took r1) in
  let d2 := Z.of_N (took r2) in
  let both (d : Z) : Stage :=
    {| world := {| now := now w + d; turn := S (S (turn w)); minted := minted w;
                   page := page w; stdout := stdout w; errors := errors w;
                   journal := journal w |};
       testIdAttribute := testIdAttribute s;
       ledger := ledger s
                 ++ [{| noted_at := now w; request := what (page w);
                        result := unit_answer r1 |};
                     {| noted_at := now w; request := frameNavigatedRequest (page w);
                        result := unit_answer r2 |}] |} in
  (together (pg <- lift getPage ;; ask (what pg) (reply pg) (fun _ => Done))
            (Page_waitForEvent_framenavigated br) ;;
   waitForPageLoadState br options) s
  = match settled r1, settled r2 with
    | Returns _, Returns _ => waitForPageLoadState br options (both (Z.max d1 d2))
    | Throws e1, Returns _ => (Throws e1, both d1)
    | Returns _, Throws e2 => (Throws e2, both d2)
    | Throws e1, Throws e2 =>
        if d1 <=? d2 then (Throws e1, both d1) else (Throws e2, both d2)
    end.
Proof.
  destruct s as [w a l]. cbv zeta. cbn [world ledger testIdAttribute].
  unfold and_then at 1. unfold together.
  unfold and_then at 1. unfold lift at 1. unfold getPage at 1.
  unfold ask at 1. cbn [world testIdAttribute ledger].
  unfold Page_waitForEvent_framenavigated, and_then, lift, getPage, ask, at_time.
  unfold unit_answer.
  assert (Hd : forall d, now w + d - now w = d) by (intros; lia).
  destruct (settled (reply (page w) (turn w))) as [[]|e1];
    cbn [world testIdAttribute ledger later turn page now minted stdout errors journal];
    destruct (settled (frameNavigated br (page w) (S (turn w)))) as [[]|e2];
    cbn [world testIdAttribute ledger later turn page now minted stdout errors journal];
    rewrite !Hd, <- !app_assoc; cbn [app];
    try match goal with |- context [if ?c then _ else _] => destruct c end;
    reflexivity.
Qed.

Lemma navigate_then_wait br options s (what : Page -> Request)
    (reply : Page -> nat -> Reply unit) :
  let pg := page (world s) in
  let k := turn (world s) in
  let t := now (world s) in
  let r1 := reply pg k in
  let r2 := frameNavigated br pg (S k) in
  let state := settles_on (waitUntil_of options) in
  let r3 := loadStateReached br pg state (S (S k)) in
  let n1 := {| noted_at := t; request := what pg; result := unit_answer r1 |} in
  let n2 := {| noted_at := t; request := frameNavigatedRequest pg;
               result := unit_answer r2 |} in
  let run :=
    (together (pg <- lift getPage ;; ask (what pg) (reply pg) (fun _ => Done))
              (Page_waitForEvent_framenavigated br) ;;
     waitForPageLoadState br options) s in
  match settled r1, settled r2 with
  | Returns _, Returns _ =>
      ledger (snd run)
      = ledger s ++ [n1; n2;
                     {| noted_at := t + Z.max (Z.of_N (took r1)) (Z.of_N (took r2));
                        request := loadStateRequest pg state;
                        result := unit_answer r3 |}] /\
      fst run = settled r3
  | _, _ =>
      ledger (snd run) = ledger s ++ [n1; n2] /\
      exists error,
        fst run = Throws error /\
        (settled r1 = Throws error \/ settled r2 = Throws error)
  end.
Proof.
  cbv zeta. rewrite navigate_then_wait_eq. cbv zeta.
  destruct (settled (reply (page (world s)) (turn (world s)))) as [[]|e1];
    destruct (settled (frameNavigated br (page (world s)) (S (turn (world s)))))
      as [[]|e2].
  - rewrite waitForPageLoadState_runs. cbv zeta.
    cbn [fst snd world ledger asked later turn page now]. split.
    + rewrite <- app_assoc. reflexivity.
    + destruct (settled (loadStateReached br (page (world s))
                  (settles_on (waitUntil_of options)) (S (S (turn (world s))))))
        as [[]|e3]; reflexivity.
  - cbn [fst snd ledger]. split; [reflexivity|]. eauto.
  - cbn [fst snd ledger]. split; [reflexivity|]. eauto.
  - match goal with |- context [if ?c then _ else _] => destruct c end;
      cbn [fst snd ledger]; (split; [reflexivity|]); eauto.
Qed.

(** X11.  [reloadPage] and [goBack] start the navigation and the wait for
    the 'framenavigated' event together.  Only when both are fulfilled do
    they wait for the load state (the [waitUntil] of the options, with
    'domcontentloaded' in place of 'commit' or of none), starting when the
    later of the two is fulfilled, and end as that wait ends.  When either
    is rejected they throw its reason and wait for no load state. *)
Theorem navigation_waits_after_both br options s :
  let pg := page (world s) in
  let k := turn (world s) in
  let t := now (world s) in
  let r2 := frameNavigated br pg (S k) in
  let state := settles_on (waitUntil_of options) in
  let r3 := loadStateReached br pg state (S (S k)) in
  let n2 := {| noted_at := t; request := frameNavigatedRequest pg;
               result := unit_answer r2 |} in
  let outcome (what : Request) (r1 : Reply unit) (run : Outcome unit * Stage) :=
    let n1 := {| noted_at := t; request := what; result := unit_answer r1 |} in
    match settled r1, settled r2 with
    | Returns _, Returns _ =>
        ledger (snd run)
        = ledger s ++ [n1; n2;
                       {| noted_at := t + Z.max (Z.of_N (took r1)) (Z.of_N (took r2));
                          request := loadStateRequest pg state;
                          result := unit_answer r3 |}] /\
        fst run = settled r3
    | _, _ =>
        ledger (snd run) = ledger s ++ [n1; n2] /\
        exists error,
          fst run = Throws error /\
          (settled r1 = Throws error \/ settled r2 = Throws error)
    end in
  outcome (reloadRequest pg) (reloaded br pg options k) (reloadPage br options s) /\
  outcome (goBackRequest pg) (wentBack br pg options k) (goBack br options s).
Proof.
  cbv zeta. split.
  - exact (navigate_then_wait br options s reloadRequest
             (fun pg => reloaded br pg options)).
  - exact (navigate_then_wait br options s goBackRequest
             (fun pg => wentBack br pg options)).
Qed.

(** X12.  The attribute name given to [getLocatorByTestId] sticks: it is
    written to Playwright's registry, and a later call without a name (or
    with an empty one) builds its selector from the name set last, not from
    the configured default.  Every call builds a new locator on the current
    page. *)
Theorem test_id_attribute_sticks br testId testId2 name s :
  name <> EmptyString ->
  (exists first second s',
     (first <- getLocatorByTestId br testId (Some name) ;;
      second <- getLocatorByTestId br testId2 None ;;
      done (first, second)) s = (Returns (first, second), s') /\
     target first = OnPage (page (world s)) (testIdSelector br name testId) None /\
     target second = OnPage (page (world s)) (testIdSelector br name testId2) None /\
     serial first <> serial second /\
     testIdAttribute s' = name) /\
  (forall attributeName,
     attributeName = None \/ attributeName = Some EmptyString ->
     exists locator s',
       getLocatorByTestId br testId attributeName s = (Returns locator, s') /\
       target locator
       = OnPage (page (world s)) (testIdSelector br (testIdAttribute s) testId) None /\
       testIdAttribute s' = testIdAttribute s).
Proof.
  intros Hname. apply String.eqb_neq in Hname.
  destruct s as [w a l]. split.
  - unfold getLocatorByTestId, and_then. rewrite Hname.
    unfold setTestIdAttribute, lift, getPage, Page_getByTestId, lift, Page_locator, done.
    cbn. do 3 eexists. split; [reflexivity|]. cbn. repeat split. lia.
  - intros attributeName [->| ->];
      unfold getLocatorByTestId, and_then, lift, getPage, Page_getByTestId, lift,
        Page_locator, done; cbn; do 2 eexists; repeat split.
Qed.

Lemma filter_map_swap {A B : Type} (f : A -> B) (p : B -> bool) (xs : list A) :
  filter p (map f xs) = map f (filter (fun x => p (f x)) xs).
Proof.
  induction xs as [|x xs IH]; [reflexivity|].
  cbn [map filter]. destruct (p (f x)); cbn [map]; rewrite IH; reflexivity.
Qed.

(** X13.  [checkCheckboxes] reads the checkbox labels once and passes if and
    only if the expected texts are exactly the trimmed texts of the labels
    whose checkbox is checked, in document order; a label with an unchecked
    checkbox or with none does not count.  Otherwise it throws: the
    mismatch, or the reason the labels could not be read. *)
Theorem checkCheckboxes_compares_checked_texts br expected s :
  let reply := checkboxLabels br (page (world s)) (turn (world s)) in
  let run := checkCheckboxes br expected s in
  match settled reply with
  | Returns labels =>
      let checked := filter (fun label => truthy (checkbox label)) labels in
      (fst run = Returns tt <->
       expected = map (fun label => trim br (innerText label)) checked) /\
      (fst run = Returns tt \/ exists error, fst run = Throws error) /\
      ledger (snd run)
      = ledger s ++ [{| noted_at := now (world s);
                        request := evalLabelsRequest (page (world s));
                        result := Found (length labels) |}]
  | Throws error => fst run = Throws error
  end.
Proof.
  destruct s as [w a l]. cbv zeta.
  unfold checkCheckboxes, getCheckboxes, and_then, lift, getPage, ask, done.
  cbn [world testIdAttribute ledger].
  destruct (settled (checkboxLabels br (page w) (turn w))) as [labels|error];
    [|reflexivity].
  cbn [fst snd]. unfold checkbox_states.
  rewrite filter_map_swap, map_map. cbn [isChecked text].
  unfold toEqual, done.
  destruct (list_eq_dec string_dec
              (map (fun label => trim br (innerText label))
                   (filter (fun label => truthy (checkbox label)) labels))
              expected) as [Heq|Hneq]; cbn [fst].
  - split; [split; auto|]. split; [now left | reflexivity].
  - split; [split; [discriminate | congruence]|].
    split; [right; eauto | reflexivity].
Qed.

Lemma getInputValue_handle br locator options s :
  let reply := inputValue br (target locator) options (turn (world s)) in
  getInputValue br (Handle locator) options s
  = (settled reply,
     asked s (inputValueRequest (target locator))
       (match settled reply with
        | Returns _ => Done
        | Throws error => Failed error
        end) (Z.of_N (took reply))).
Proof.
  destruct s as [w a l]. cbv zeta.
  unfold getInputValue, and_then, lift, getLocator, ret, ask, asked.
  cbn [world testIdAttribute ledger].
  destruct (settled (inputValue br (target locator) options (turn w))); reflexivity.
Qed.

Lemma together_effects {A B : Type} (first : Act A) (second : Act B) s :
  let t := now (world s) in
  let s1 := snd (first s) in
  let s2 := snd (second (at_time s1 t)) in
  let run := together first second s in
  ledger (snd run) = ledger s2 /\
  turn (world (snd run)) = turn (world s2) /\
  match fst (first s), fst (second (at_time s1 t)) with
  | Returns a, Returns b => fst run = Returns (a, b)
  | Throws e1, Returns _ => fst run = Throws e1
  | Returns _, Throws e2 => fst run = Throws e2
  | Throws e1, Throws e2 => fst run = Throws e1 \/ fst run = Throws e2
  end.
Proof.
  cbv zeta. unfold together.
  destruct (first s) as [r1 s1]. cbn [fst snd].
  destruct (second (at_time s1 (now (world s)))) as [r2 s2]. cbn [fst snd].
  destruct r1 as [a|e1], r2 as [b|e2]; cbn [fst snd]; try (repeat split; reflexivity).
  destruct (_ <=? _); cbn [fst snd]; repeat split; auto.
Qed.

Lemma and_then_done {A B : Type} (m : Act A) (f : A -> B) s :
  and_then m (fun a => done (f a)) s
  = (match fst (m s) with
     | Returns a => Returns (f a)
     | Throws error => Throws error
     end, snd (m s)).
Proof.
  unfold and_then, done. destruct (m s) as [[a|error] s']; reflexivity.
Qed.

Lemma all_together_input_values br options locators s :
  let replies := replies_from br options (turn (world s)) locators in
  let run := all_together
               (map (fun locator => getInputValue br (Handle locator) options) locators)
               s in
  length (ledger (snd run)) = (length (ledger s) + length locators)%nat /\
  turn (world (snd run)) = (turn (world s) + length locators)%nat /\
  (Forall (fun r => exists v, settled r = Returns v) replies ->
   fst run = Returns (map value_of replies)) /\
  (Exists (fun r => exists error, settled r = Throws error) replies ->
   exists error,
     fst run = Throws error /\ Exists (fun r => settled r = Throws error) replies).
Proof.
  revert s. induction locators as [|locator locators IH]; intros s; cbv zeta.
  - cbn. repeat split; try lia.
    intros H. inversion H.
  - cbn [map all_together replies_from length].
    rewrite and_then_done. cbn [fst snd].
    pose proof (together_effects
                  (getInputValue br (Handle locator) options)
                  (all_together
                     (map (fun locator => getInputValue br (Handle locator) options)
                          locators)) s) as Heff.
    cbv zeta in Heff. rewrite getInputValue_handle in Heff. cbv zeta in Heff.
    cbn [fst snd] in Heff.
    match type of Heff with
    | context [all_together _ ?s1] =>
        specialize (IH s1); remember s1 as s1' eqn:Hs1'
    end.
    cbv zeta in IH.
    assert (Hturn1 : turn (world s1') = S (turn (world s)))
      by (rewrite Hs1'; reflexivity).
    assert (Hledger1 : length (ledger s1') = S (length (ledger s)))
      by (rewrite Hs1'; cbn [ledger at_time asked]; rewrite length_app; simpl; lia).
    clear Hs1'.
    rewrite Hturn1, Hledger1 in IH.
    destruct IH as (Hlen & Hturn & Hall & Hex).
    destruct Heff as (Hl & Ht & Hres).
    rewrite Hl, Ht, Hlen, Hturn.
    split; [lia|]. split; [lia|]. split.
    + intros Hfine. inversion Hfine as [|r0 rs [v Hv] Hrest]; subst.
      rewrite Hv in Hres. specialize (Hall Hrest). rewrite Hall in Hres.
      rewrite Hres. cbn [map fst snd].
      assert (Hval : value_of (inputValue br (target locator) options (turn (world s)))
                     = v) by (unfold value_of; rewrite Hv; reflexivity).
      rewrite Hval. reflexivity.
    + intros Hbad.
      destruct (settled (inputValue br (target locator) options (turn (world s))))
        as [v|e1] eqn:Hfirst.
      * inversion Hbad as [r0 rs [e He]|r0 rs Hrest]; subst; [congruence|].
        destruct (Hex Hrest) as (e & Hfst & Hwhich).
        rewrite Hfst in Hres. rewrite Hres. exists e. split; [reflexivity|].
        now apply Exists_cons_tl.
      * destruct (fst (all_together _ s1')) as [vs|e2] eqn:Hrest.
        -- rewrite Hres. exists e1. split; [reflexivity|].
           now apply Exists_cons_hd.
        -- assert (Hlater : Exists (fun r => settled r = Throws e2)
                              (replies_from br options (S (turn (world s))) locators)).
           { destruct (Exists_dec (fun r => exists error, settled r = Throws error)
                         (replies_from br options (S (turn (world s))) locators))
               as [Hsome|Hnone].
             - intros r0. destruct (settled r0);
                 [right; intros [? ?]; discriminate | left; eauto].
             - destruct (Hex Hsome) as (e & Hfst & Hwhich).
               injection Hfst as <-. exact Hwhich.
             - exfalso.
               assert (Hfine : Forall (fun r => exists v, settled r = Returns v)
                                 (replies_from br options (S (turn (world s)))
                                    locators)).
               { apply Forall_forall. intros r0 Hin.
                 destruct (settled r0) as [v|e] eqn:Hr0; [eauto|].
                 exfalso. apply Hnone. apply Exists_exists. exists r0. eauto. }
               discriminate (Hall Hfine). }
           destruct Hres as [-> | ->].
           ++ exists e1. split; [reflexivity|]. now apply Exists_cons_hd.
           ++ exists e2. split; [reflexivity|]. now apply Exists_cons_tl.
Qed.

Lemma replies_from_nth br options base m a k n :
  replies_from br options k
    (map (fun i => {| serial := m + i; target := NthOf base i |}) (seq a n))
  = map (fun i => inputValue br (NthOf base i) options (k + (i - a))) (seq a n).
Proof.
  revert a k. induction n as [|n IH]; intros a k; [reflexivity|].
  cbn [seq map replies_from target]. rewrite Nat.sub_diag, Nat.add_0_r.
  f_equal. rewrite IH. apply map_ext_in. intros i Hi. apply in_seq in Hi.
  f_equal. lia.
Qed.

(** X14.  [getAllInputValues] asks for the input value of every match of
    its input, all requests started together once the matches are known.
    When every request is fulfilled it returns the values in document
    order, one per matching node; when one is rejected it throws.  When the
    matches cannot be had it throws that reason and asks for no value. *)
Theorem getAllInputValues_in_document_order rt br input options s :
  let base := target (locator_of input None (world s)) in
  let k := turn (world s) in
  let reply i := inputValue br (NthOf base i) options (S k + i) in
  let run := getAllInputValues rt br input options s in
  match settled (elements rt base k) with
  | Returns nodes =>
      let n := length nodes in
      length (ledger (snd run)) = (length (ledger s) + n)%nat /\
      ((forall i, (i < n)%nat -> exists v, settled (reply i) = Returns v) ->
       fst run = Returns (map (fun i => value_of (reply i)) (seq 0 n))) /\
      (forall i, (i < n)%nat -> (exists error, settled (reply i) = Throws error) ->
       exists error, fst run = Throws error)
  | Throws error => fst run = Throws error /\ ledger (snd run) = ledger s
  end.
Proof.
  destruct s as [w a l]. cbv zeta. cbn [world ledger].
  unfold getAllInputValues, and_then, lift. cbn [world testIdAttribute ledger].
  rewrite getAllLocators_eq. cbv zeta.
  destruct (settled (elements rt (target (locator_of input None w)) (turn w)))
    as [nodes|error]; [|split; reflexivity].
  match goal with
  | |- context [all_together (map ?f ?ls) ?s1] =>
      pose proof (all_together_input_values br options ls s1) as H
  end.
  cbv zeta in H. cbn [world ledger turn] in H.
  rewrite replies_from_nth in H. rewrite length_map, length_seq in H.
  destruct H as (Hlen & _ & Hall & Hex).
  assert (Hshape : map (fun i => inputValue br (NthOf (target (locator_of input None w)) i)
                                   options (S (turn w) + (i - 0)))
                       (seq 0 (length nodes))
                   = map (fun i => inputValue br (NthOf (target (locator_of input None w)) i)
                                     options (S (turn w) + i))
                         (seq 0 (length nodes))).
  { apply map_ext. intros i. rewrite Nat.sub_0_r. reflexivity. }
  rewrite Hshape in Hall, Hex.
  split; [exact Hlen|]. split.
  - intros Hfine. rewrite Hall.
    + rewrite map_map. reflexivity.
    + apply Forall_forall. intros r Hin. apply in_map_iff in Hin.
      destruct Hin as (i & <- & Hi). apply in_seq in Hi. apply Hfine. lia.
  - intros i Hi Hbad.
    destruct Hex as (error & Hfst & _).
    + apply Exists_exists. eexists. split; [|exact Hbad].
      apply in_map_iff. exists i. split; [reflexivity|]. apply in_seq. lia.
    + eauto.
Qed.

(** X15.  [navigateToHomeFromAnywhere] clicks the logo only after it has
    been seen: when the expectation that the logo is visible fails it throws
    that reason and no click is made; otherwise it clicks the element with
    the test id "mercari-logo" (under the attribute name set at the time)
    and ends as the click ends.  It leaves [testInfo.errors] alone. *)
Theorem home_is_clicked_only_when_seen rt br s :
  let w := world s in
  let logo := OnPage (page w) (testIdSelector br (testIdAttribute s) "mercari-logo")
                None in
  let seen := toBeVisible rt logo None (turn w) in
  let clicked := clickOn rt logo None (S (turn w)) in
  let run := navigateToHomeFromAnywhere rt br s in
  let w' := world (snd run) in
  errors w' = errors w /\
  match settled seen with
  | Throws error =>
      fst run = Throws error /\
      news w w' = [{| at_ms := now w; what := toBeVisibleCall logo;
                      went := Failed error |}]
  | Returns _ =>
      fst run = settled clicked /\
      news w w' = [{| at_ms := now w; what := toBeVisibleCall logo; went := Done |};
                   {| at_ms := now w + Z.of_N (took seen); what := clickCall logo;
                      went := unit_answer clicked |}]
  end.
Proof.
  destruct s as [w a l]. cbv zeta. cbn [world testIdAttribute].
  assert (Hrun : exists o w',
            navigateToHomeFromAnywhere rt br
              {| world := w; testIdAttribute := a; ledger := l |}
            = (o, {| world := w'; testIdAttribute := a; ledger := l |}) /\
            errors w' = errors w /\
            let logo := OnPage (page w) (testIdSelector br a "mercari-logo") None in
            match settled (toBeVisible rt logo None (turn w)) with
            | Throws error =>
                o = Throws error /\
                journal w' = journal w ++ [{| at_ms := now w; what := toBeVisibleCall logo;
                                              went := Failed error |}]
            | Returns _ =>
                o = settled (clickOn rt logo None (S (turn w))) /\
                journal w'
                = journal w ++ [{| at_ms := now w; what := toBeVisibleCall logo;
                                   went := Done |};
                                {| at_ms := now w + Z.of_N (took (toBeVisible rt logo None
                                                                    (turn w)));
                                   what := clickCall logo;
                                   went := unit_answer (clickOn rt logo None
                                                          (S (turn w))) |}]
            end).
  { unfold navigateToHomeFromAnywhere, logo_mercari, getLocatorByTestId.
    unfold and_then, done, lift, getPage, Page_getByTestId, lift, Page_locator.
    cbn [world testIdAttribute ledger page minted].
    rewrite expectElementToBeVisible_runs. cbv zeta.
    cbn [locator_of target located turn page asks_soft].
    unfold asks_soft, getExpectWithSoftOption. cbn [soft_of softly expect_timeout_of].
    destruct (settled (toBeVisible rt
                (OnPage (page w) (testIdSelector br a "mercari-logo") None) None (turn w)))
      as [[]|error].
    - cbn [world testIdAttribute ledger answered page minted turn].
      unfold click, bind, getLocator, ret, await.
      cbn [target turn answered].
      unfold unit_answer.
      destruct (settled (clickOn rt
                  (OnPage (page w) (testIdSelector br a "mercari-logo") None) None
                  (S (turn w)))) as [[]|error];
        do 2 eexists; (split; [reflexivity|]);
        cbn [errors journal answered now]; rewrite <- app_assoc; repeat split.
    - do 2 eexists. split; [reflexivity|]. cbn [errors journal answered now].
      repeat split. }
  destruct Hrun as (o & w' & -> & Herr & Hcases). cbv zeta in Hcases.
  cbn [fst snd world]. split; [exact Herr|].
  destruct (settled (toBeVisible rt
              (OnPage (page w) (testIdSelector br a "mercari-logo") None) None (turn w)))
    as [[]|error]; destruct Hcases as (-> & Hj); (split; [reflexivity|]);
    apply news_app; exact Hj.
Qed.

End WiderFacts.

(** A witness for X12: after a locator by the attribute "data-qa", a
    locator without a name is built from "data-qa" too. *)
Lemma test_id_attribute_sticks_witness :
  exists first second s',
    Wider.and_then (Wider.getLocatorByTestId Scene.calm "search" (Some "data-qa"%string))
      (fun first =>
         Wider.and_then (Wider.getLocatorByTestId Scene.calm "logo" None)
           (fun second => Wider.done (first, second))) Scene.opening
    = (Returns (first, second), s') /\
    target second = OnPage 7%nat "internal:testid=[data-qa=logo]" None.
Proof.
  destruct (test_id_attribute_sticks Scene.calm "search" "logo" "data-qa" Scene.opening)
    as [(first & second & s' & Hrun & _ & Hsecond & _) _].
  - discriminate.
  - exists first, second, s'. split; [exact Hrun | exact Hsecond].
Defined.

(** A witness for X14: three matches, three values, in document order
    although the first answer comes last. *)
Lemma getAllInputValues_in_document_order_witness :
  fst (Wider.getAllInputValues Sample.three_items Scene.calm (Selector "input") None
         Scene.opening)
  = Returns ["first"; "second"; "third"]%string.
Proof.
  pose proof (getAllInputValues_in_document_order Sample.three_items Scene.calm
                (Selector "input") None Scene.opening) as H.
  cbv zeta in H.
  change (settled (elements Sample.three_items
                     (target (locator_of (Selector "input") None
                                (Wider.world Scene.opening)))
                     (turn (Wider.world Scene.opening))))
    with (@Returns (list Node) [11; 12; 13]%nat) in H.
  cbv beta iota in H. destruct H as (_ & H & _).
  rewrite H; [reflexivity|].
  intros [|[|[|i]]] Hi; eexists; reflexivity.
Defined.

(* ================================================================= *)
(** ** Click and navigate, all the way *)

Lemma clickAndNavigate_eq rt tc input options w :
  let clicked := target (locator_of input None w) in
  let budget := orElse (click_timeout_of options) (STANDARD_TIMEOUT tc) in
  let state := orDefault (loadState_of options) LOADSTATE in
  let r1 := clickOn rt clicked options (turn w) in
  let r2 := waitForFrameNavigated rt (page w) budget (S (turn w)) in
  let d1 := Z.of_N (took r1) in
  let d2 := Z.of_N (took r2) in
  let w0 := located input w in
  let both (d : Z) : World :=
    {| now := now w + d; turn := S (S (turn w)); minted := minted w0;
       page := page w; stdout := stdout w; errors := errors w;
       journal := journal w
                  ++ [{| at_ms := now w; what := clickCall clicked; went := went_as r1 |};
                      {| at_ms := now w; what := waitForEventCall (page w) budget;
                         went := went_as r2 |}] |} in
  clickAndNavigate rt tc input options w
  = match settled r1, settled r2 with
    | Returns _, Returns _ =>
        ActionUtils.Page_waitForLoadState rt state budget (both (Z.max d1 d2))
    | Throws e1, Returns _ => (Throws e1, both d1)
    | Returns _, Throws e2 => (Throws e2, both d2)
    | Throws e1, Throws e2 =>
        if d1 <=? d2 then (Throws e1, both d1) else (Throws e2, both d2)
    end.
Proof.
  cbv zeta.
  unfold clickAndNavigate. unfold bind at 1. unfold Promise_all.
  unfold click. unfold bind at 1. rewrite getLocator_runs.
  unfold ActionUtils.Page_waitForEvent_framenavigated, bind, getPage, await, went_as.
  destruct (located_same input w) as (Hnow & Hturn & Hpage & Hout & Herr & Hj).
  assert (Hd : forall d, now w + d - now w = d) by (intros; lia).
  rewrite Hturn.
  destruct (settled (clickOn rt (target (locator_of input None w)) options (turn w)))
    as [[]|e1];
    cbn [now turn minted page stdout errors journal answered];
    rewrite ?Hnow, ?Hturn, ?Hpage, ?Hout, ?Herr, ?Hj;
    destruct (settled (waitForFrameNavigated rt (page w)
                (orElse (click_timeout_of options) (STANDARD_TIMEOUT tc))
                (S (turn w)))) as [[]|e2];
    cbn [now turn minted page stdout errors journal answered];
    rewrite ?Hnow, ?Hturn, ?Hpage, ?Hout, ?Herr, ?Hj, !Hd, <- !app_assoc; cbn [app];
    try match goal with |- context [if ?c then _ else _] => destruct c end;
    reflexivity.
Qed.

(** X16.  [clickAndNavigate] waits for the load state only when the click
    and the wait for the 'framenavigated' event are both fulfilled: it then
    waits for [options?.loadState || LOADSTATE] with the budget it gave the
    event, starting when the later of the two is fulfilled, and ends as
    that wait ends.  When the click or the event is rejected it throws that
    reason and waits for no load state. *)
Theorem clickAndNavigate_waits_after_both rt tc input options w :
  let clicked := target (locator_of input None w) in
  let budget := orElse (click_timeout_of options) (STANDARD_TIMEOUT tc) in
  let state := orDefault (loadState_of options) LOADSTATE in
  let r1 := clickOn rt clicked options (turn w) in
  let r2 := waitForFrameNavigated rt (page w) budget (S (turn w)) in
  let r3 := waitForLoadState rt (page w) state budget (S (S (turn w))) in
  let e1 := {| at_ms := now w; what := clickCall clicked; went := went_as r1 |} in
  let e2 := {| at_ms := now w; what := waitForEventCall (page w) budget;
               went := went_as r2 |} in
  let run := clickAndNavigate rt tc input options w in
  match settled r1, settled r2 with
  | Returns _, Returns _ =>
      fst run = settled r3 /\
      news w (snd run)
      = [e1; e2;
         {| at_ms := now w + Z.max (Z.of_N (took r1)) (Z.of_N (took r2));
            what := waitForLoadStateCall (page w) state budget;
            went := went_as r3 |}]
  | _, _ =>
      news w (snd run) = [e1; e2] /\
      exists error,
        fst run = Throws error /\
        (settled r1 = Throws error \/ settled r2 = Throws error)
  end.
Proof.
  cbv zeta. rewrite clickAndNavigate_eq. cbv zeta.
  destruct (settled (clickOn rt (target (locator_of input None w)) options (turn w)))
    as [[]|e1];
    destruct (settled (waitForFrameNavigated rt (page w)
                (orElse (click_timeout_of options) (STANDARD_TIMEOUT tc))
                (S (turn w)))) as [[]|e2].
  - unfold ActionUtils.Page_waitForLoadState, bind, getPage, await, went_as.
    cbn [page turn].
    destruct (settled (waitForLoadState rt (page w)
                (orDefault (loadState_of options) LOADSTATE)
                (orElse (click_timeout_of options) (STANDARD_TIMEOUT tc))
                (S (S (turn w))))) as [[]|e3];
      cbn [fst snd]; (split; [reflexivity|]); apply news_app;
      cbn [journal answered now]; rewrite <- app_assoc; reflexivity.
  - cbn [fst snd]. split; [apply news_app; reflexivity|]. eauto.
  - cbn [fst snd]. split; [apply news_app; reflexivity|]. eauto.
  - match goal with |- context [if ?c then _ else _] => destruct c end;
      cbn [fst snd]; (split; [apply news_app; reflexivity|]); eauto.
Qed.
